(** * The Telegraf context facade (src/context.ts)

    A shallow embedding of [TelegrafContext]: the classification done by the
    constructor, the read accessors, the guard [assert] and the dispatch
    methods that delegate to the [Telegram] client.

    The class is TypeScript, but what runs is JavaScript, so the model works
    on untyped runtime values: a field that is typed as an object may still
    hold [undefined] or [null] at run time, and the operators [??], [?.] and
    [in] are given their run-time meaning. *)

From Stdlib Require Import Ascii String List ZArith.
From stdpp Require Import base option list gmap strings.
Import ListNotations.
Open Scope string_scope.
Open Scope list_scope.

(** ** JavaScript values *)

(** Objects are finite maps from property names to values; an array is an
    object keyed by its indices.  Inherited properties are left out: none of
    the names this file looks up (message, chat, from, id, ...) exists on
    [Object.prototype] or on the prototype of a primitive. *)
#[warnings="-register-all"] Inductive value : Type :=
  | VUndef
  | VNull
  | VBool (b : bool)
  | VNum (n : Z)
  | VStr (s : string)
  | VObj (o : gmap string value).

(** What a [throw] carries: the [TypeError] the engine raises itself, or
    [new Error(message)]. *)
Inductive JsError : Type :=
  | TypeError
  | Error (message : string).

(** A completion: a returned value or a thrown error. *)
Inductive Res (A : Type) : Type :=
  | Ret (a : A)
  | Throw (e : JsError).
Arguments Ret {A} a.
Arguments Throw {A} e.

Definition is_undefined (v : value) : bool :=
  match v with VUndef => true | _ => false end.

(** [v == null], the test behind [??] and [?.]. *)
Definition nullish (v : value) : bool :=
  match v with VUndef | VNull => true | _ => false end.

(** [o\[k\]] for an object [o]: a missing property reads as [undefined]. *)
Definition field (o : gmap string value) (k : string) : value :=
  default VUndef (o !! k).

(** [k in o] for an object [o]. *)
Definition has_key (o : gmap string value) (k : string) : bool :=
  bool_decide (is_Some (o !! k)).

(** Looking a name up in an object is left folded by [simpl] and [cbn]. *)
#[global] Arguments field : simpl never.
#[global] Arguments has_key : simpl never.

(** [v.k]: throws on [undefined] and [null], reads [undefined] from a
    primitive. *)
Definition member (v : value) (k : string) : Res value :=
  match v with
  | VUndef | VNull => Throw TypeError
  | VObj o => Ret (field o k)
  | _ => Ret VUndef
  end.

(** [v?.k] *)
Definition opt_member (v : value) (k : string) : value :=
  match v with
  | VObj o => field o k
  | _ => VUndef
  end.

(** [k in v]: a [TypeError] unless [v] is an object. *)
Definition js_in (k : string) (v : value) : Res bool :=
  match v with
  | VObj o => Ret (has_key o k)
  | _ => Throw TypeError
  end.

(** ** The variant taxonomy *)

Definition UpdateTypes : list string :=
  [ "callback_query";
    "channel_post";
    "chosen_inline_result";
    "edited_channel_post";
    "edited_message";
    "inline_query";
    "shipping_query";
    "pre_checkout_query";
    "message";
    "poll";
    "poll_answer" ].

Definition MessageSubTypes : list string :=
  [ "voice";
    "video_note";
    "video";
    "animation";
    "venue";
    "text";
    "supergroup_chat_created";
    "successful_payment";
    "sticker";
    "pinned_message";
    "photo";
    "new_chat_title";
    "new_chat_photo";
    "new_chat_members";
    "migrate_to_chat_id";
    "migrate_from_chat_id";
    "location";
    "left_chat_member";
    "invoice";
    "group_chat_created";
    "game";
    "dice";
    "document";
    "delete_chat_photo";
    "contact";
    "channel_chat_created";
    "audio";
    "connected_website";
    "passport_data";
    "poll";
    "forward_date" ].

Definition MessageSubTypesMapping : gmap string string :=
  {[ "forward_date" := "forward" ]}.

(** [MessageSubTypesMapping\[type\] || type]; every label of the table is a
    non-empty string, so [||] falls through exactly on a missing entry. *)
Definition mapSubType (type : string) : string :=
  default type (MessageSubTypesMapping !! type).

(** ** The facade and the outbound client *)

(** One call made on the [Telegram] client: the operation and its
    positional arguments. *)
Definition Call : Type := string * list value.

(** The [Telegram] client, an external collaborator.  [api] is what a call
    returns (or throws) to the caller; [outbox] records the calls made on
    the client, oldest first. *)
Record Telegram : Type := mkTelegram {
  webhookReply_ : value;
  api : string → list value → Res value;
  outbox : list Call
}.

Record Options : Type := mkOptions {
  channelMode : option bool;
  username : option string
}.

(** The fields of a [TelegrafContext].  [updateType] is [None] when it
    holds [undefined]; [contextState] likewise. *)
Record TelegrafContext : Type := mkContext {
  update : gmap string value;
  tg : Telegram;
  options : Options;
  updateType : option string;
  updateSubTypes : list string;
  contextState : option (gmap string value)
}.

Definition set_contextState (s : option (gmap string value))
    (c : TelegrafContext) : TelegrafContext :=
  mkContext (update c) (tg c) (options c) (updateType c) (updateSubTypes c) s.

Definition set_tg (t : Telegram) (c : TelegrafContext) : TelegrafContext :=
  mkContext (update c) t (options c) (updateType c) (updateSubTypes c)
    (contextState c).

(** ** Code that runs on a facade

    A getter or method body is a function of [this] that returns a
    completion together with [this] as the body left it. *)
Definition M (A : Type) : Type := TelegrafContext → Res A * TelegrafContext.

#[global] Instance M_ret : MRet M := λ A a c, (Ret a, c).

#[global] Instance M_bind : MBind M := λ A B f m c,
  match m c with
  | (Ret a, c') => f a c'
  | (Throw e, c') => (Throw e, c')
  end.

Definition this : M TelegrafContext := λ c, (Ret c, c).

Definition throw {A} (e : JsError) : M A := λ c, (Throw e, c).

Definition lift {A} (r : Res A) : M A := λ c, (r, c).

(** The completion of running [m] on [c]. *)
Definition eval {A} (m : M A) (c : TelegrafContext) : Res A := (m c).1.

(** [a ?? b]: [b] is evaluated only when [a] is nullish. *)
Definition coalesce (a b : M value) : M value :=
  v ← a; if nullish v then b else mret v.

Infix "??" := coalesce (at level 45, left associativity).

#[global] Instance Res_ret : MRet Res := λ A a, Ret a.

#[global] Instance Res_bind : MBind Res := λ A B f r,
  match r with
  | Ret a => f a
  | Throw e => Throw e
  end.

(** ** The constructor *)

(** [UpdateTypes.find((key) => key in this.update)] *)
Definition classify (update : gmap string value) : option string :=
  find (has_key update) UpdateTypes.

(** [Array.prototype.filter] with a callback that may throw: the elements
    are visited in order and the first throw ends the loop. *)
Fixpoint filterRes {A} (f : A → Res bool) (l : list A) : Res (list A) :=
  match l with
  | [] => Ret []
  | x :: l' =>
      b ← f x;
      rest ← filterRes f l';
      Ret (if b : bool then x :: rest else rest)
  end.

(** The right-hand side of the two assignments to [this.updateSubTypes]. *)
Definition classifySubTypes (update : gmap string value) (options : Options)
    (updateType : option string) : Res (list string) :=
  if bool_decide (updateType = Some "message")
     || (bool_decide (channelMode options = Some true)
         && bool_decide (updateType = Some "channel_post"))
  then
    keys ← filterRes
      (λ key, js_in key (field update (default "undefined" updateType)))
      MessageSubTypes;
    Ret (map mapSubType keys)
  else Ret [].

(** ** Read accessors *)

Definition me : M (option string) := c ← this; mret (username (options c)).
Definition telegram : M Telegram := c ← this; mret (tg c).
Definition message : M value := c ← this; mret (field (update c) "message").
Definition editedMessage : M value :=
  c ← this; mret (field (update c) "edited_message").
Definition inlineQuery : M value :=
  c ← this; mret (field (update c) "inline_query").
Definition shippingQuery : M value :=
  c ← this; mret (field (update c) "shipping_query").
Definition preCheckoutQuery : M value :=
  c ← this; mret (field (update c) "pre_checkout_query").
Definition chosenInlineResult : M value :=
  c ← this; mret (field (update c) "chosen_inline_result").
Definition channelPost : M value :=
  c ← this; mret (field (update c) "channel_post").
Definition editedChannelPost : M value :=
  c ← this; mret (field (update c) "edited_channel_post").
Definition callbackQuery : M value :=
  c ← this; mret (field (update c) "callback_query").
Definition poll : M value := c ← this; mret (field (update c) "poll").
Definition pollAnswer : M value :=
  c ← this; mret (field (update c) "poll_answer").

Definition chat : M value :=
  v ← message
       ?? editedMessage
       ?? (q ← callbackQuery; mret (opt_member q "message"))
       ?? channelPost
       ?? editedChannelPost;
  mret (opt_member v "chat").

Definition from : M value :=
  v ← message
       ?? editedMessage
       ?? callbackQuery
       ?? inlineQuery
       ?? channelPost
       ?? editedChannelPost
       ?? shippingQuery
       ?? preCheckoutQuery
       ?? chosenInlineResult;
  mret (opt_member v "from").

Definition inlineMessageId : M value :=
  v ← callbackQuery ?? chosenInlineResult;
  mret (opt_member v "inline_message_id").

Definition passportData : M value :=
  v ← message; mret (opt_member v "passport_data").

(** The getter of [state] creates the bag on first use. *)
Definition state : M (gmap string value) :=
  c ← this;
  match contextState c with
  | Some s => mret s
  | None => λ c, (Ret ∅, set_contextState (Some ∅) c)
  end.

(** The setter of [state], for an object [value]: a shallow copy. *)
Definition set_state (value : gmap string value) : M unit :=
  λ c, (Ret (), set_contextState (Some value) c).

Definition webhookReply : M value := c ← this; mret (webhookReply_ (tg c)).

Definition set_webhookReply (enable : value) : M unit :=
  λ c, (Ret (),
        set_tg (mkTelegram enable (api (tg c)) (outbox (tg c))) c).

(** The last statement of the constructor reads [this\[key\]] for every
    property of the prototype, which runs each getter once, and rebinds the
    methods to [this].  Rebinding changes nothing here, where a method
    always receives its facade; running the getters does, through [state]. *)
Definition touch {A} (g : M A) : M unit := g;; mret ().

Definition prototypeGetters : list (M unit) :=
  [ touch me; touch telegram; touch message; touch editedMessage;
    touch inlineQuery; touch shippingQuery; touch preCheckoutQuery;
    touch chosenInlineResult; touch channelPost; touch editedChannelPost;
    touch callbackQuery; touch poll; touch pollAnswer; touch chat;
    touch from; touch inlineMessageId; touch passportData; touch state;
    touch webhookReply ].

Fixpoint forEach (l : list (M unit)) : M unit :=
  match l with
  | [] => mret ()
  | g :: l' => g;; forEach l'
  end.

Definition TelegrafContext_new (update : gmap string value) (tg : Telegram)
    (options : Options) : Res TelegrafContext :=
  let updateType := classify update in
  match classifySubTypes update options updateType with
  | Throw e => Throw e
  | Ret subTypes =>
      let c := mkContext update tg options updateType subTypes None in
      match forEach prototypeGetters c with
      | (Ret _, c') => Ret c'
      | (Throw e, _) => Throw e
      end
  end.

(** ** The guard and the outbound call *)

Definition dquote : string := String (Ascii.ascii_of_nat 34) EmptyString.

(** A template literal prints [undefined] as the word and an array as its
    elements joined by commas. *)
Definition show_updateType (t : option string) : string :=
  default "undefined" t.

Definition show_updateSubTypes (l : list string) : string :=
  String.concat "," l.

Definition unavailable (method : string) (c : TelegrafContext) : string :=
  "Telegraf: " +:+ dquote +:+ method +:+ dquote +:+ " isn't available for "
    +:+ dquote +:+ show_updateType (updateType c) +:+ "::"
    +:+ show_updateSubTypes (updateSubTypes c) +:+ dquote.

Definition assert (value : value) (method : string) : M unit :=
  if is_undefined value
  then c ← this; throw (Error (unavailable method c))
  else mret ().

(** [this.telegram.op(...args)]: the call is made, and what the client
    returns or throws is the completion. *)
Definition invoke (op : string) (args : list value) : M value :=
  λ c, let t := tg c in
       (api t op args,
        set_tg (mkTelegram (webhookReply_ t) (api t) (outbox t ++ [(op, args)])) c).

(** ** Dispatch methods *)

(** The body shared by the methods that inject one identifier:
    [this.assert(this.x, method); return this.telegram.op(this.x.id, ...args)]. *)
Definition guarded (subject : M value) (method op : string)
    (args : list value) : M value :=
  v ← subject;
  assert v method;;
  telegram;;
  s ← subject;
  id ← lift (member s "id");
  invoke op (id :: args).

Definition answerInlineQuery : list value → M value :=
  guarded inlineQuery "answerInlineQuery" "answerInlineQuery".
Definition answerCbQuery : list value → M value :=
  guarded callbackQuery "answerCbQuery" "answerCbQuery".
Definition answerGameQuery : list value → M value :=
  guarded callbackQuery "answerGameQuery" "answerGameQuery".
Definition answerShippingQuery : list value → M value :=
  guarded shippingQuery "answerShippingQuery" "answerShippingQuery".
Definition answerPreCheckoutQuery : list value → M value :=
  guarded preCheckoutQuery "answerPreCheckoutQuery" "answerPreCheckoutQuery".

Definition editMessageText (text extra : value) : M value :=
  v ← callbackQuery ?? inlineMessageId;
  assert v "editMessageText";;
  telegram;;
  ch ← chat;
  q ← callbackQuery;
  i ← inlineMessageId;
  invoke "editMessageText"
    [ opt_member ch "id";
      opt_member (opt_member q "message") "message_id";
      i;
      text;
      extra ].

Definition editMessageCaption (caption extra : value) : M value :=
  v ← callbackQuery ?? inlineMessageId;
  assert v "editMessageCaption";;
  telegram;;
  ch ← chat;
  q ← callbackQuery;
  i ← inlineMessageId;
  invoke "editMessageCaption"
    [ opt_member ch "id";
      opt_member (opt_member q "message") "message_id";
      i;
      caption;
      extra ].

Definition editMessageMedia (media extra : value) : M value :=
  v ← callbackQuery ?? inlineMessageId;
  assert v "editMessageMedia";;
  telegram;;
  ch ← chat;
  q ← callbackQuery;
  i ← inlineMessageId;
  invoke "editMessageMedia"
    [ opt_member ch "id";
      opt_member (opt_member q "message") "message_id";
      i;
      media;
      extra ].

Definition editMessageReplyMarkup (markup : value) : M value :=
  v ← callbackQuery ?? inlineMessageId;
  assert v "editMessageReplyMarkup";;
  telegram;;
  ch ← chat;
  q ← callbackQuery;
  i ← inlineMessageId;
  invoke "editMessageReplyMarkup"
    [ opt_member ch "id";
      opt_member (opt_member q "message") "message_id";
      i;
      markup ].

Definition editMessageLiveLocation (latitude longitude markup : value)
    : M value :=
  v ← callbackQuery ?? inlineMessageId;
  assert v "editMessageLiveLocation";;
  telegram;;
  ch ← chat;
  q ← callbackQuery;
  i ← inlineMessageId;
  invoke "editMessageLiveLocation"
    [ latitude;
      longitude;
      opt_member ch "id";
      opt_member (opt_member q "message") "message_id";
      i;
      markup ].

Definition stopMessageLiveLocation (markup : value) : M value :=
  v ← callbackQuery ?? inlineMessageId;
  assert v "stopMessageLiveLocation";;
  telegram;;
  ch ← chat;
  q ← callbackQuery;
  i ← inlineMessageId;
  invoke "stopMessageLiveLocation"
    [ opt_member ch "id";
      opt_member (opt_member q "message") "message_id";
      i;
      markup ].

Definition reply : list value → M value :=
  guarded chat "reply" "sendMessage".
Definition getChat : list value → M value :=
  guarded chat "getChat" "getChat".
Definition exportChatInviteLink : list value → M value :=
  guarded chat "exportChatInviteLink" "exportChatInviteLink".
Definition kickChatMember : list value → M value :=
  guarded chat "kickChatMember" "kickChatMember".
Definition unbanChatMember : list value → M value :=
  guarded chat "unbanChatMember" "unbanChatMember".
Definition restrictChatMember : list value → M value :=
  guarded chat "restrictChatMember" "restrictChatMember".
Definition promoteChatMember : list value → M value :=
  guarded chat "promoteChatMember" "promoteChatMember".
Definition setChatAdministratorCustomTitle : list value → M value :=
  guarded chat "setChatAdministratorCustomTitle" "setChatAdministratorCustomTitle".
Definition setChatPhoto : list value → M value :=
  guarded chat "setChatPhoto" "setChatPhoto".
Definition deleteChatPhoto : list value → M value :=
  guarded chat "deleteChatPhoto" "deleteChatPhoto".
Definition setChatTitle : list value → M value :=
  guarded chat "setChatTitle" "setChatTitle".
Definition setChatDescription : list value → M value :=
  guarded chat "setChatDescription" "setChatDescription".
Definition pinChatMessage : list value → M value :=
  guarded chat "pinChatMessage" "pinChatMessage".
Definition unpinChatMessage : list value → M value :=
  guarded chat "unpinChatMessage" "unpinChatMessage".
Definition leaveChat : list value → M value :=
  guarded chat "leaveChat" "leaveChat".
Definition setChatPermissions : list value → M value :=
  guarded chat "setChatPermissions" "setChatPermissions".
Definition getChatAdministrators : list value → M value :=
  guarded chat "getChatAdministrators" "getChatAdministrators".
Definition getChatMember : list value → M value :=
  guarded chat "getChatMember" "getChatMember".
Definition getChatMembersCount : list value → M value :=
  guarded chat "getChatMembersCount" "getChatMembersCount".
Definition replyWithPhoto : list value → M value :=
  guarded chat "replyWithPhoto" "sendPhoto".
Definition replyWithMediaGroup : list value → M value :=
  guarded chat "replyWithMediaGroup" "sendMediaGroup".
Definition replyWithAudio : list value → M value :=
  guarded chat "replyWithAudio" "sendAudio".
Definition replyWithDice : list value → M value :=
  guarded chat "replyWithDice" "sendDice".
Definition replyWithDocument : list value → M value :=
  guarded chat "replyWithDocument" "sendDocument".
Definition replyWithSticker : list value → M value :=
  guarded chat "replyWithSticker" "sendSticker".
Definition replyWithVideo : list value → M value :=
  guarded chat "replyWithVideo" "sendVideo".
Definition replyWithAnimation : list value → M value :=
  guarded chat "replyWithAnimation" "sendAnimation".
Definition replyWithVideoNote : list value → M value :=
  guarded chat "replyWithVideoNote" "sendVideoNote".
Definition replyWithInvoice : list value → M value :=
  guarded chat "replyWithInvoice" "sendInvoice".
Definition replyWithGame : list value → M value :=
  guarded chat "replyWithGame" "sendGame".
Definition replyWithVoice : list value → M value :=
  guarded chat "replyWithVoice" "sendVoice".
Definition replyWithPoll : list value → M value :=
  guarded chat "replyWithPoll" "sendPoll".
Definition replyWithQuiz : list value → M value :=
  guarded chat "replyWithQuiz" "sendQuiz".
Definition stopPoll : list value → M value :=
  guarded chat "stopPoll" "stopPoll".
Definition replyWithChatAction : list value → M value :=
  guarded chat "replyWithChatAction" "sendChatAction".
Definition replyWithLocation : list value → M value :=
  guarded chat "replyWithLocation" "sendLocation".
Definition replyWithVenue : list value → M value :=
  guarded chat "replyWithVenue" "sendVenue".
Definition replyWithContact : list value → M value :=
  guarded chat "replyWithContact" "sendContact".

Definition setPassportDataErrors (errors : value) : M value :=
  guarded from "setPassportDataErrors" "setPassportDataErrors" [errors].

Definition getStickerSet (setName : value) : M value :=
  telegram;; invoke "getStickerSet" [setName].

Definition setChatStickerSet (setName : value) : M value :=
  guarded chat "setChatStickerSet" "setChatStickerSet" [setName].

Definition deleteChatStickerSet : M value :=
  guarded chat "deleteChatStickerSet" "deleteChatStickerSet" [].

Definition setStickerPositionInSet (sticker position : value) : M value :=
  telegram;; invoke "setStickerPositionInSet" [sticker; position].

Definition setStickerSetThumb (args : list value) : M value :=
  telegram;; invoke "setStickerSetThumb" args.

Definition deleteStickerFromSet (sticker : value) : M value :=
  telegram;; invoke "deleteStickerFromSet" [sticker].

Definition uploadStickerFile : list value → M value :=
  guarded from "uploadStickerFile" "uploadStickerFile".
Definition createNewStickerSet : list value → M value :=
  guarded from "createNewStickerSet" "createNewStickerSet".
Definition addStickerToSet : list value → M value :=
  guarded from "addStickerToSet" "addStickerToSet".

Definition getMyCommands : M value := telegram;; invoke "getMyCommands" [].

Definition setMyCommands (commands : value) : M value :=
  telegram;; invoke "setMyCommands" [commands].

(** [{ parse_mode: mode, ...extra }] for an options object or [undefined]:
    the keys of [extra] win. *)
Definition withParseMode (mode : string) (extra : value) : value :=
  VObj (match extra with
        | VObj o => o ∪ {[ "parse_mode" := VStr mode ]}
        | _ => {[ "parse_mode" := VStr mode ]}
        end).

Definition replyWithMarkdown (markdown extra : value) : M value :=
  reply [markdown; withParseMode "Markdown" extra].

Definition replyWithMarkdownV2 (markdown extra : value) : M value :=
  reply [markdown; withParseMode "MarkdownV2" extra].

Definition replyWithHTML (html extra : value) : M value :=
  reply [html; withParseMode "HTML" extra].

Definition deleteMessage (messageId : value) : M value :=
  v ← chat;
  assert v "deleteMessage";;
  if negb (is_undefined messageId) then
    telegram;;
    ch ← chat;
    id ← lift (member ch "id");
    invoke "deleteMessage" [id; messageId]
  else
    m ← message;
    assert m "deleteMessage";;
    telegram;;
    ch ← chat;
    id ← lift (member ch "id");
    m' ← message;
    mid ← lift (member m' "message_id");
    invoke "deleteMessage" [id; mid].

Definition forwardMessage (chatId extra : value) : M value :=
  m ← message;
  assert m "forwardMessage";;
  telegram;;
  m1 ← message;
  ch ← lift (member m1 "chat");
  id ← lift (member ch "id");
  m2 ← message;
  mid ← lift (member m2 "message_id");
  invoke "forwardMessage" [chatId; id; mid; extra].

(** The methods that require the resolved chat, under the name each one
    passes to [assert].  A JavaScript call binds a missing argument to
    [undefined], which is how the fixed-arity entries read their list. *)
Definition arg (i : nat) (args : list value) : value := nth i args VUndef.

Definition chatScoped : list (string * (list value → M value)) :=
  [ ("reply", reply);
    ("getChat", getChat);
    ("exportChatInviteLink", exportChatInviteLink);
    ("kickChatMember", kickChatMember);
    ("unbanChatMember", unbanChatMember);
    ("restrictChatMember", restrictChatMember);
    ("promoteChatMember", promoteChatMember);
    ("setChatAdministratorCustomTitle", setChatAdministratorCustomTitle);
    ("setChatPhoto", setChatPhoto);
    ("deleteChatPhoto", deleteChatPhoto);
    ("setChatTitle", setChatTitle);
    ("setChatDescription", setChatDescription);
    ("pinChatMessage", pinChatMessage);
    ("unpinChatMessage", unpinChatMessage);
    ("leaveChat", leaveChat);
    ("setChatPermissions", setChatPermissions);
    ("getChatAdministrators", getChatAdministrators);
    ("getChatMember", getChatMember);
    ("getChatMembersCount", getChatMembersCount);
    ("replyWithPhoto", replyWithPhoto);
    ("replyWithMediaGroup", replyWithMediaGroup);
    ("replyWithAudio", replyWithAudio);
    ("replyWithDice", replyWithDice);
    ("replyWithDocument", replyWithDocument);
    ("replyWithSticker", replyWithSticker);
    ("replyWithVideo", replyWithVideo);
    ("replyWithAnimation", replyWithAnimation);
    ("replyWithVideoNote", replyWithVideoNote);
    ("replyWithInvoice", replyWithInvoice);
    ("replyWithGame", replyWithGame);
    ("replyWithVoice", replyWithVoice);
    ("replyWithPoll", replyWithPoll);
    ("replyWithQuiz", replyWithQuiz);
    ("stopPoll", stopPoll);
    ("replyWithChatAction", replyWithChatAction);
    ("replyWithLocation", replyWithLocation);
    ("replyWithVenue", replyWithVenue);
    ("replyWithContact", replyWithContact);
    ("setChatStickerSet", λ args, setChatStickerSet (arg 0 args));
    ("deleteChatStickerSet", λ _, deleteChatStickerSet);
    ("deleteMessage", λ args, deleteMessage (arg 0 args)) ].

(** ** The specification's reading of the resolution chains *)

(** First present wins: the first candidate that is neither [undefined]
    nor [null]. *)
Definition firstPresent (candidates : list value) : option value :=
  find (λ v, negb (nullish v)) candidates.

Definition chatCandidates (u : gmap string value) : list value :=
  [ field u "message";
    field u "edited_message";
    opt_member (field u "callback_query") "message";
    field u "channel_post";
    field u "edited_channel_post" ].

Definition senderCandidates (u : gmap string value) : list value :=
  [ field u "message";
    field u "edited_message";
    field u "callback_query";
    field u "inline_query";
    field u "channel_post";
    field u "edited_channel_post";
    field u "shipping_query";
    field u "pre_checkout_query";
    field u "chosen_inline_result" ].

Definition inlineTargetCandidates (u : gmap string value) : list value :=
  [ field u "callback_query"; field u "chosen_inline_result" ].

(** The named field of the first present candidate, absent when no
    candidate is present. *)
Definition resolve (candidates : list value) (k : string) : value :=
  match firstPresent candidates with
  | Some v => opt_member v k
  | None => VUndef
  end.

Definition resolvedChat (u : gmap string value) : value :=
  resolve (chatCandidates u) "chat".

Definition resolvedSender (u : gmap string value) : value :=
  resolve (senderCandidates u) "from".

Definition resolvedInlineMessageId (u : gmap string value) : value :=
  resolve (inlineTargetCandidates u) "inline_message_id".

(** The specification's reading of the secondary kinds: the sub-kinds
    whose fields the message-like object has, in declaration order, with
    the forward timestamp renamed. *)
Definition renamed (k : string) : string :=
  if String.eqb k "forward_date" then "forward" else k.

Definition presentSubKinds (sub : gmap string value) : list string :=
  map renamed (List.filter (has_key sub) MessageSubTypes).

(** [a] is declared before [b] in the list [l]. *)
Definition declaredBefore (l : list string) (a b : string) : Prop :=
  ∃ i j, l !! i = Some a ∧ l !! j = Some b ∧ i < j.

(** [sub] occurs inside [s]. *)
Definition contains (s sub : string) : Prop :=
  ∃ pre post, s = pre +:+ sub +:+ post.

(** ** The edit family *)

(** The guard of the edit family fails exactly when
    [this.callbackQuery ?? this.inlineMessageId] is [undefined]. *)
Definition editGuardFails (c : TelegrafContext) : bool :=
  nullish (field (update c) "callback_query")
  && is_undefined (resolvedInlineMessageId (update c)).

(** The three addressing arguments every edit method injects. *)
Definition addressing (c : TelegrafContext) : list value :=
  [ opt_member (resolvedChat (update c)) "id";
    opt_member (opt_member (field (update c) "callback_query") "message")
      "message_id";
    resolvedInlineMessageId (update c) ].

(** What an edit method does when it places its arguments as [place]
    says: fail in the guard, or make the one call. *)
Definition editOutcome (method : string) (place : list value → list value)
    (c : TelegrafContext) : Res value * TelegrafContext :=
  if editGuardFails c
  then (Throw (Error (unavailable method c)), c)
  else invoke method (place (addressing c)) c.

(** The candidates for the chat that are fields of the event itself. *)
Definition ownChatCandidates (u : gmap string value) : list value :=
  [ field u "message";
    field u "edited_message";
    field u "channel_post";
    field u "edited_channel_post" ].

(** Calling the same accessor twice in a row. *)
Definition twice {A} (g : M A) : M (A * A) := a ← g; b ← g; mret (a, b).

(** ** Sample clients and events *)

Definition sampleClient : Telegram :=
  mkTelegram (VBool false) (λ _ _, Ret (VBool true)) [].

Definition noOptions : Options := mkOptions None None.

Definition channelOptions : Options := mkOptions (Some true) None.

(** [{ update_id: 1 }] *)
Definition unknownUpdate : gmap string value := {[ "update_id" := VNum 1 ]}.

(** [{ message: { message_id: 10, chat: { id: 5 }, from: { id: 7 },
       text, forward_date: 3 } }] *)
Definition textMessage : gmap string value :=
  {[ "message" := VObj {[
       "message_id" := VNum 10;
       "chat" := VObj {[ "id" := VNum 5 ]};
       "from" := VObj {[ "id" := VNum 7 ]};
       "text" := VStr "hi";
       "forward_date" := VNum 3 ]} ]}.

(** [{ message: { message_id: 10, chat: { id: 5 }, from: { id: 7 },
       text } }] *)
Definition hiMessage : gmap string value :=
  {[ "message" := VObj {[
       "message_id" := VNum 10;
       "chat" := VObj {[ "id" := VNum 5 ]};
       "from" := VObj {[ "id" := VNum 7 ]};
       "text" := VStr "hi" ]} ]}.

(** [{ message: null }], which no typed caller builds. *)
Definition nullMessage : gmap string value := {[ "message" := VNull ]}.

(** [{ channel_post: { message_id: 11, chat: { id: 6 }, photo: {} } }] *)
Definition photoPost : gmap string value :=
  {[ "channel_post" := VObj {[
       "message_id" := VNum 11;
       "chat" := VObj {[ "id" := VNum 6 ]};
       "photo" := VObj ∅ ]} ]}.

(** [{ inline_query: { id: 'q', from: { id: 7 } } }] *)
Definition inlineQueryUpdate : gmap string value :=
  {[ "inline_query" := VObj {[
       "id" := VStr "q";
       "from" := VObj {[ "id" := VNum 7 ]} ]} ]}.

(** [{ callback_query: { id: 'c', from: { id: 8 },
       message: { message_id: 20, chat: { id: 9 } } } }] *)
Definition buttonPress : gmap string value :=
  {[ "callback_query" := VObj {[
       "id" := VStr "c";
       "from" := VObj {[ "id" := VNum 8 ]};
       "message" := VObj {[
         "message_id" := VNum 20;
         "chat" := VObj {[ "id" := VNum 9 ]} ]} ]} ]}.

(** [{ callback_query: { id: 'c', from: { id: 8 } } }] *)
Definition bareButtonPress : gmap string value :=
  {[ "callback_query" := VObj {[
       "id" := VStr "c";
       "from" := VObj {[ "id" := VNum 8 ]} ]} ]}.

(** An event with two primary fields: the message of [textMessage]
    next to the callback query of [bareButtonPress]. *)
Definition messageAndBareButton : gmap string value :=
  textMessage ∪ bareButtonPress.

(** The message of [textMessage] next to the callback query of
    [buttonPress]. *)
Definition messageAndButton : gmap string value :=
  textMessage ∪ buttonPress.

(** The facade a returning constructor call leaves behind for the sample
    client: the bag of [state] is already created. *)
Definition built (u : gmap string value) (o : Options)
    (kind : option string) (subKinds : list string) : TelegrafContext :=
  mkContext u sampleClient o kind subKinds (Some ∅).

(** ** Accessors under test *)

Definition readUpdateType : M (option string) :=
  c ← this; mret (updateType c).

Definition readUpdateSubTypes : M (list string) :=
  c ← this; mret (updateSubTypes c).

Definition readAccessors : list (M value) :=
  [ message; editedMessage; inlineQuery; shippingQuery; preCheckoutQuery;
    chosenInlineResult; channelPost; editedChannelPost; callbackQuery;
    poll; pollAnswer; chat; from; inlineMessageId; passportData ].

(** [g] returns [f this] and leaves [this] as it was. *)
Definition Pure {A} (g : M A) (f : TelegrafContext → A) : Prop :=
  ∀ c, g c = (Ret (f c), c).

  
(** ** Dispatch tables *)

(** The chat-scoped methods that forward their rest arguments: the name
    of the method, the operation of the client it calls, the method. *)
Definition chatOperations
    : list (string * string * (list value → M value)) :=
  [ ("reply", "sendMessage", reply);
    ("getChat", "getChat", getChat);
    ("exportChatInviteLink", "exportChatInviteLink", exportChatInviteLink);
    ("kickChatMember", "kickChatMember", kickChatMember);
    ("unbanChatMember", "unbanChatMember", unbanChatMember);
    ("restrictChatMember", "restrictChatMember", restrictChatMember);
    ("promoteChatMember", "promoteChatMember", promoteChatMember);
    ("setChatAdministratorCustomTitle", "setChatAdministratorCustomTitle", setChatAdministratorCustomTitle);
    ("setChatPhoto", "setChatPhoto", setChatPhoto);
    ("deleteChatPhoto", "deleteChatPhoto", deleteChatPhoto);
    ("setChatTitle", "setChatTitle", setChatTitle);
    ("setChatDescription", "setChatDescription", setChatDescription);
    ("pinChatMessage", "pinChatMessage", pinChatMessage);
    ("unpinChatMessage", "unpinChatMessage", unpinChatMessage);
    ("leaveChat", "leaveChat", leaveChat);
    ("setChatPermissions", "setChatPermissions", setChatPermissions);
    ("getChatAdministrators", "getChatAdministrators", getChatAdministrators);
    ("getChatMember", "getChatMember", getChatMember);
    ("getChatMembersCount", "getChatMembersCount", getChatMembersCount);
    ("replyWithPhoto", "sendPhoto", replyWithPhoto);
    ("replyWithMediaGroup", "sendMediaGroup", replyWithMediaGroup);
    ("replyWithAudio", "sendAudio", replyWithAudio);
    ("replyWithDice", "sendDice", replyWithDice);
    ("replyWithDocument", "sendDocument", replyWithDocument);
    ("replyWithSticker", "sendSticker", replyWithSticker);
    ("replyWithVideo", "sendVideo", replyWithVideo);
    ("replyWithAnimation", "sendAnimation", replyWithAnimation);
    ("replyWithVideoNote", "sendVideoNote", replyWithVideoNote);
    ("replyWithInvoice", "sendInvoice", replyWithInvoice);
    ("replyWithGame", "sendGame", replyWithGame);
    ("replyWithVoice", "sendVoice", replyWithVoice);
    ("replyWithPoll", "sendPoll", replyWithPoll);
    ("replyWithQuiz", "sendQuiz", replyWithQuiz);
    ("stopPoll", "stopPoll", stopPoll);
    ("replyWithChatAction", "sendChatAction", replyWithChatAction);
    ("replyWithLocation", "sendLocation", replyWithLocation);
    ("replyWithVenue", "sendVenue", replyWithVenue);
    ("replyWithContact", "sendContact", replyWithContact) ].

(** The query-scoped methods: the name of the method, which is also the
    operation it calls, the field of the event that holds its query, the
    method. *)
Definition queryScoped
    : list (string * string * (list value → M value)) :=
  [ ("answerInlineQuery", "inline_query", answerInlineQuery);
    ("answerCbQuery", "callback_query", answerCbQuery);
    ("answerGameQuery", "callback_query", answerGameQuery);
    ("answerShippingQuery", "shipping_query", answerShippingQuery);
    ("answerPreCheckoutQuery", "pre_checkout_query", answerPreCheckoutQuery) ].

(** The user-scoped methods that forward their rest arguments; each calls
    the operation of its own name. *)
Definition userScoped : list (string * (list value → M value)) :=
  [ ("uploadStickerFile", uploadStickerFile);
    ("createNewStickerSet", createNewStickerSet);
    ("addStickerToSet", addStickerToSet) ].

(** The three ways a method that injects the id of one subject can end: the
    error of the guard on [undefined], the [TypeError] of reading [id] from
    [null], or the one call with the id in front. *)
Definition guardedOutcome (subject : value) (method op : string)
    (args : list value) (c : TelegrafContext) : Res value * TelegrafContext :=
  match subject with
  | VUndef => (Throw (Error (unavailable method c)), c)
  | VNull => (Throw TypeError, c)
  | _ => invoke op (opt_member subject "id" :: args) c
  end.

(** Two facades that differ at most in the calls recorded by the client. *)
Definition sameButOutbox (c c' : TelegrafContext) : Prop :=
  update c' = update c ∧
  options c' = options c ∧
  updateType c' = updateType c ∧
  updateSubTypes c' = updateSubTypes c ∧
  contextState c' = contextState c ∧
  webhookReply_ (tg c') = webhookReply_ (tg c) ∧
  api (tg c') = api (tg c).

(** The secondary kinds are scanned for this event under these options. *)
Definition scansSubKinds (u : gmap string value) (o : Options) : bool :=
  bool_decide (classify u = Some "message")
  || (bool_decide (channelMode o = Some true)
      && bool_decide (classify u = Some "channel_post")).

(** The object whose fields are scanned then. *)
Definition scannedObject (u : gmap string value) : value :=
  field u (default "undefined" (classify u)).

Definition is_object (v : value) : bool :=
  match v with VObj _ => true | _ => false end.

(** Every dispatch method of the class, as a function of its argument
    list. *)
Definition allDispatch : list (list value → M value) :=
  map snd chatScoped ++ map snd queryScoped ++ map snd userScoped ++
  [ (λ args, setPassportDataErrors (arg 0 args));
    (λ args, editMessageText (arg 0 args) (arg 1 args));
    (λ args, editMessageCaption (arg 0 args) (arg 1 args));
    (λ args, editMessageMedia (arg 0 args) (arg 1 args));
    (λ args, editMessageReplyMarkup (arg 0 args));
    (λ args, editMessageLiveLocation (arg 0 args) (arg 1 args) (arg 2 args));
    (λ args, stopMessageLiveLocation (arg 0 args));
    (λ args, getStickerSet (arg 0 args));
    (λ args, setStickerPositionInSet (arg 0 args) (arg 1 args));
    setStickerSetThumb;
    (λ args, deleteStickerFromSet (arg 0 args));
    (λ _, getMyCommands);
    (λ args, setMyCommands (arg 0 args));
    (λ args, replyWithMarkdown (arg 0 args) (arg 1 args));
    (λ args, replyWithMarkdownV2 (arg 0 args) (arg 1 args));
    (λ args, replyWithHTML (arg 0 args) (arg 1 args));
    (λ args, forwardMessage (arg 0 args) (arg 1 args)) ].

(** Running [m] changes the facade at most by recording up to [n] more
    calls behind the calls the client had recorded. *)
Definition callsAtMost {A} (n : nat) (m : M A) : Prop :=
  ∀ c,
    sameButOutbox c (m c).2 ∧
    ∃ calls,
      outbox (tg (m c).2) = outbox (tg c) ++ calls ∧
      (List.length calls ≤ n)%nat.

(** ** More sample clients and events *)

(** A client whose every call throws. *)
Definition failingClient : Telegram :=
  mkTelegram (VBool false) (λ _ _, Throw (Error "transport")) [].

(** [{ chosen_inline_result: { result_id: 'r', from: { id: 4 },
       inline_message_id: 'im' } }] *)
Definition chosenResult : gmap string value :=
  {[ "chosen_inline_result" := VObj {[
       "result_id" := VStr "r";
       "from" := VObj {[ "id" := VNum 4 ]};
       "inline_message_id" := VStr "im" ]} ]}.

(** [{ poll_answer: { poll_id: 'p', user: { id: 3 } } }] *)
Definition pollAnswerUpdate : gmap string value :=
  {[ "poll_answer" := VObj {[
       "poll_id" := VStr "p";
       "user" := VObj {[ "id" := VNum 3 ]} ]} ]}.

(** [{ message: { message_id: 12 } }], a message without its chat. *)
Definition chatlessMessage : gmap string value :=
  {[ "message" := VObj {[ "message_id" := VNum 12 ]} ]}.

(** [{ message: { message_id: 12, text, forward_date: 3 } }], a forwarded
    text without its chat. *)
Definition chatlessText : gmap string value :=
  {[ "message" := VObj {[
       "message_id" := VNum 12;
       "text" := VStr "hi";
       "forward_date" := VNum 3 ]} ]}.

(** * Properties *)

(** ** Values *)

Lemma opt_member_nullish v k : nullish v = true → opt_member v k = VUndef.
Proof. by destruct v. Qed.

Lemma member_present v k : nullish v = false → member v k = Ret (opt_member v k).
Proof. by destruct v. Qed.

Lemma is_undefined_nullish v : is_undefined v = true → nullish v = true.
Proof. by destruct v. Qed.

Lemma is_undefined_true v : is_undefined v = true ↔ v = VUndef.
Proof. by destruct v. Qed.

Lemma has_key_false o k : has_key o k = false → field o k = VUndef.
Proof.
  unfold has_key, field. intros H%bool_decide_eq_false.
  destruct (o !! k); [by destruct H | done].
Qed.

Lemma field_lookup o k v : o !! k = Some v → field o k = v.
Proof. unfold field. by intros ->. Qed.

Lemma has_key_lookup o k v : o !! k = Some v → has_key o k = true.
Proof. unfold has_key. intros ->. by apply bool_decide_eq_true. Qed.

(** ** Getters that only read *)

Lemma bind_pure {A B} (g : M A) f (k : A → M B) c :
  Pure g f → (g ≫= k) c = k (f c) c.
Proof. intros Hg. unfold mbind, M_bind. by rewrite Hg. Qed.

Lemma pure_read {A} (f : TelegrafContext → A) :
  Pure (c ← this; mret (f c)) f.
Proof. done. Qed.

Lemma touch_pure {A} (g : M A) f c : Pure g f → touch g c = (Ret (), c).
Proof. intros Hg. unfold touch. by rewrite (bind_pure _ _ _ _ Hg). Qed.

Lemma twice_pure {A} (g : M A) f c :
  Pure g f → twice g c = (Ret (f c, f c), c).
Proof.
  intros Hg. unfold twice.
  by rewrite (bind_pure _ _ _ _ Hg), (bind_pure _ _ _ _ Hg).
Qed.

(** Unfolds a chain of [??] and follows it candidate by candidate. *)
Ltac chain :=
  unfold coalesce, mbind, M_bind, mret, M_ret, this, resolve, firstPresent;
  cbn;
  repeat (match goal with
          | |- context [nullish ?v] => destruct (nullish v) eqn:?
          end; cbn);
  rewrite ?opt_member_nullish by done; reflexivity.

Lemma chat_resolved : Pure chat (λ c, resolvedChat (update c)).
Proof.
  intros c.
  unfold chat, message, editedMessage, callbackQuery, channelPost,
    editedChannelPost, resolvedChat, chatCandidates.
  chain.
Qed.

Lemma from_resolved : Pure from (λ c, resolvedSender (update c)).
Proof.
  intros c.
  unfold from, message, editedMessage, callbackQuery, inlineQuery,
    channelPost, editedChannelPost, shippingQuery, preCheckoutQuery,
    chosenInlineResult, resolvedSender, senderCandidates.
  chain.
Qed.

Lemma inlineMessageId_resolved :
  Pure inlineMessageId (λ c, resolvedInlineMessageId (update c)).
Proof.
  intros c.
  unfold inlineMessageId, callbackQuery, chosenInlineResult,
    resolvedInlineMessageId, inlineTargetCandidates.
  chain.
Qed.

Lemma telegram_pure : Pure telegram tg.
Proof. done. Qed.

Lemma message_pure : Pure message (λ c, field (update c) "message").
Proof. done. Qed.

Lemma callbackQuery_pure :
  Pure callbackQuery (λ c, field (update c) "callback_query").
Proof. done. Qed.

Lemma passportData_pure :
  Pure passportData
    (λ c, opt_member (field (update c) "message") "passport_data").
Proof. done. Qed.

Create HintDb pure.

#[global] Hint Resolve chat_resolved from_resolved inlineMessageId_resolved
  passportData_pure : pure.

(** ** First present wins *)

(** [resolve] reads the field of the candidate at the first position that
    is present. *)
Lemma resolve_first candidates k i v :
  candidates !! i = Some v →
  nullish v = false →
  (∀ j w, j < i → candidates !! j = Some w → nullish w = true) →
  resolve candidates k = opt_member v k.
Proof.
  unfold resolve, firstPresent.
  revert i. induction candidates as [| w ws IH]; intros i Hi Hv Hbefore.
  - by rewrite lookup_nil in Hi.
  - destruct i as [| i]; cbn in Hi.
    + injection Hi as ->. cbn. by rewrite Hv.
    + cbn. rewrite (Hbefore 0 w) by (done || lia). cbn.
      apply (IH i); [done | done |].
      intros j w' Hj Hw'. apply (Hbefore (S j) w'); [lia | done].
Qed.

Lemma resolve_none candidates k :
  Forall (λ v, nullish v = true) candidates → resolve candidates k = VUndef.
Proof.
  unfold resolve, firstPresent.
  induction 1 as [| v vs Hv _ IH]; [done |]. cbn. by rewrite Hv.
Qed.

(** ** The constructor *)

Lemma state_fresh c :
  contextState c = None → state c = (Ret ∅, set_contextState (Some ∅) c).
Proof. intros H. unfold state, mbind, M_bind, this. by rewrite H. Qed.

(** Reading every property of the prototype creates the state bag and
    changes nothing else. *)
Lemma forEach_prototypeGetters c :
  contextState c = None →
  forEach prototypeGetters c = (Ret (), set_contextState (Some ∅) c).
Proof.
  intros Hc. unfold prototypeGetters. cbn [forEach].
  do 13 (rewrite bind_pure with (f := λ _, ());
         [| intros ?; eapply touch_pure, pure_read]).
  do 4 (rewrite bind_pure with (f := λ _, ());
        [| intros ?; eapply touch_pure; eauto with pure]).
  unfold touch, mbind, M_bind. by rewrite state_fresh.
Qed.

Lemma construct_unfold u t o :
  TelegrafContext_new u t o =
  match classifySubTypes u o (classify u) with
  | Ret subTypes => Ret (mkContext u t o (classify u) subTypes (Some ∅))
  | Throw e => Throw e
  end.
Proof.
  unfold TelegrafContext_new. destruct (classifySubTypes _ _ _); [| done].
  by rewrite forEach_prototypeGetters.
Qed.

Lemma filterRes_object sub l :
  filterRes (λ key, js_in key (VObj sub)) l = Ret (List.filter (has_key sub) l).
Proof.
  induction l as [| k l IH]; [done |].
  cbn [filterRes]. rewrite IH. cbn. by destruct (has_key sub k).
Qed.

Lemma mapSubType_renamed k : mapSubType k = renamed k.
Proof.
  unfold mapSubType, renamed, MessageSubTypesMapping.
  destruct (String.eqb_spec k "forward_date") as [-> | Hne].
  - by rewrite lookup_singleton_eq.
  - by rewrite lookup_singleton_ne.
Qed.

Lemma classifySubTypes_object u o kind sub :
  u !! kind = Some (VObj sub) →
  kind = "message" ∨ (kind = "channel_post" ∧ channelMode o = Some true) →
  classifySubTypes u o (Some kind) = Ret (presentSubKinds sub).
Proof.
  intros Hsub Hkind. unfold classifySubTypes, presentSubKinds.
  replace (_ || _) with true.
  - change (default "undefined" (Some kind)) with kind.
    rewrite (field_lookup _ _ _ Hsub), filterRes_object.
    unfold mbind, Res_bind. f_equal. apply map_ext, mapSubType_renamed.
  - destruct Hkind as [-> | [-> ->]]; by vm_compute.
Qed.

Lemma classifySubTypes_other u o kind :
  kind ≠ Some "message" →
  (kind = Some "channel_post" → channelMode o ≠ Some true) →
  classifySubTypes u o kind = Ret [].
Proof.
  intros Hm Hc. unfold classifySubTypes.
  rewrite (bool_decide_eq_false_2 _ Hm). cbn.
  destruct (bool_decide (channelMode o = Some true)) eqn:Ho; [| done].
  apply bool_decide_eq_true in Ho. cbn.
  case_bool_decide; [by destruct (Hc ltac:(done)) | done].
Qed.

(** ** Declaration order *)

Lemma UpdateTypes_NoDup : NoDup UpdateTypes.
Proof. apply (bool_decide_unpack _). by vm_compute. Qed.

Lemma declaredBefore_cons l x a b :
  declaredBefore l a b → declaredBefore (x :: l) a b.
Proof.
  intros (i & j & Hi & Hj & Hij). exists (S i), (S j). repeat split; [done.. | lia].
Qed.

Lemma declaredBefore_irrefl l a : NoDup l → ¬ declaredBefore l a a.
Proof.
  intros Hl (i & j & Hi & Hj & Hij).
  pose proof (NoDup_lookup l i j a Hl Hi Hj). lia.
Qed.

Lemma declaredBefore_asym l a b :
  NoDup l → declaredBefore l a b → ¬ declaredBefore l b a.
Proof.
  intros Hl (i & j & Hi & Hj & Hij) (j' & i' & Hj' & Hi' & Hji).
  pose proof (NoDup_lookup l i i' a Hl Hi Hi').
  pose proof (NoDup_lookup l j j' b Hl Hj Hj'). lia.
Qed.

(** [find] returns an element that satisfies the test when everything
    declared before it fails the test. *)
Lemma find_earliest (f : string → bool) l a :
  a ∈ l → f a = true →
  (∀ b, declaredBefore l b a → f b = false) →
  find f l = Some a.
Proof.
  induction l as [| x l IH]; intros Hin Ha Hbefore.
  - by apply elem_of_nil in Hin.
  - cbn. destruct (decide (x = a)) as [-> | Hne].
    + by rewrite Ha.
    + apply elem_of_cons in Hin as [-> | Hin]; [done |].
      rewrite Hbefore.
      * apply IH; [done | done |].
        intros b Hb. by apply Hbefore, declaredBefore_cons.
      * apply list_elem_of_lookup in Hin as [j Hj].
        exists 0, (S j). repeat split; [done.. | lia].
Qed.

Lemma find_absent (f : string → bool) l :
  (∀ x, x ∈ l → f x = false) → find f l = None.
Proof.
  induction l as [| x l IH]; intros Hl; [done |]. cbn.
  rewrite Hl by apply list_elem_of_here.
  apply IH. intros y Hy. by apply Hl, list_elem_of_further.
Qed.

(** Finds an element in a literal list. *)
Ltac in_list :=
  repeat first [apply list_elem_of_here | apply list_elem_of_further].

(** Splits a membership in a literal list into its cases. *)
Ltac each_member H :=
  repeat (apply elem_of_cons in H as [H | H]);
  [.. | by apply elem_of_nil in H].

(** ** Classification of the primary kind *)

(** C1, as the code has it: for every inbound event in which none of the
    primary-kind fields is present, the constructor returns; it yields a
    facade whose primary kind is [undefined] and whose list of secondary
    kinds is empty. *)
Theorem construct_without_primary_kind u t o :
  (∀ k, k ∈ UpdateTypes → has_key u k = false) →
  TelegrafContext_new u t o = Ret (mkContext u t o None [] (Some ∅)).
Proof.
  intros Hnone.
  assert (classify u = None) as Hc.
  { by apply find_absent. }
  rewrite construct_unfold, Hc. by rewrite classifySubTypes_other.
Qed.

Lemma construct_without_primary_kind_witness :
  TelegrafContext_new unknownUpdate sampleClient noOptions
  = Ret (mkContext unknownUpdate sampleClient noOptions None [] (Some ∅)).
Proof.
  apply (construct_without_primary_kind unknownUpdate sampleClient noOptions).
  intros k Hk. unfold UpdateTypes in Hk. each_member Hk; by subst k.
Defined.

(** C1 fails on [{ update_id: 1 }]: no primary-kind field is present, and
    the constructor returns a facade instead of throwing. *)
Lemma construct_unknown_does_not_throw :
  (∀ k, k ∈ UpdateTypes → has_key unknownUpdate k = false) ∧
  TelegrafContext_new unknownUpdate sampleClient noOptions
  = Ret (built unknownUpdate noOptions None []) ∧
  ¬ ∃ e, TelegrafContext_new unknownUpdate sampleClient noOptions = Throw e.
Proof.
  split; [| split].
  - intros k Hk. unfold UpdateTypes in Hk. each_member Hk; by subst k.
  - by vm_compute.
  - intros [e He]. vm_compute in He. discriminate He.
Qed.

(** C5: an event with exactly one primary-kind field is classified as that
    kind; an event with the fields of exactly two primary kinds is
    classified as the one declared earlier in [UpdateTypes]; and the
    primary kind of a facade is this classification. *)
Theorem classify_first_declared :
  (∀ u k,
     k ∈ UpdateTypes → has_key u k = true →
     (∀ k', k' ∈ UpdateTypes → has_key u k' = true → k' = k) →
     classify u = Some k) ∧
  (∀ u a b,
     declaredBefore UpdateTypes a b →
     has_key u a = true → has_key u b = true →
     (∀ k', k' ∈ UpdateTypes → has_key u k' = true → k' = a ∨ k' = b) →
     classify u = Some a) ∧
  (∀ u t o c, TelegrafContext_new u t o = Ret c → updateType c = classify u).
Proof.
  split; [| split].
  - intros u k Hk Hpresent Honly. apply find_earliest; [done.. |].
    intros b Hb. destruct (has_key u b) eqn:Hub; [| done].
    assert (b ∈ UpdateTypes) as Hin.
    { destruct Hb as (i & _ & Hi & _). apply list_elem_of_lookup. eauto. }
    rewrite (Honly b Hin Hub) in Hb.
    by destruct (declaredBefore_irrefl _ _ UpdateTypes_NoDup Hb).
  - intros u a b Hab Ha Hb Honly. apply find_earliest; [| done |].
    { destruct Hab as (i & _ & Hi & _). apply list_elem_of_lookup. eauto. }
    intros x Hx. destruct (has_key u x) eqn:Hux; [| done].
    assert (x ∈ UpdateTypes) as Hin.
    { destruct Hx as (i & _ & Hi & _). apply list_elem_of_lookup. eauto. }
    destruct (Honly x Hin Hux) as [-> | ->].
    + by destruct (declaredBefore_irrefl _ _ UpdateTypes_NoDup Hx).
    + by destruct (declaredBefore_asym _ _ _ UpdateTypes_NoDup Hab Hx).
  - intros u t o c. rewrite construct_unfold.
    destruct (classifySubTypes _ _ _); [| done]. by intros [= <-].
Qed.

Lemma classify_first_declared_witness :
  classify textMessage = Some "message" ∧
  classify messageAndBareButton = Some "callback_query" ∧
  updateType (built textMessage noOptions (Some "message") ["text"; "forward"])
  = classify textMessage.
Proof.
  destruct classify_first_declared as (Hone & Htwo & Hbuilt).
  split; [| split].
  - apply (Hone textMessage "message"); [in_list | by vm_compute |].
    intros k Hk. unfold UpdateTypes in Hk.
    each_member Hk; subst k; by vm_compute.
  - apply (Htwo messageAndBareButton "callback_query" "message");
      [| by vm_compute.. |].
    + exists 0, 8. repeat split; [done.. | lia].
    + intros k Hk. unfold UpdateTypes in Hk.
      each_member Hk; subst k; vm_compute; (by left) || (by right) || done.
  - apply (Hbuilt textMessage sampleClient noOptions). by vm_compute.
Defined.

(** ** Classification of the secondary kinds *)

Lemma presentSubKinds_elem sub s :
  s ∈ presentSubKinds sub ↔
  ∃ k, k ∈ MessageSubTypes ∧ has_key sub k = true ∧ s = renamed k.
Proof.
  unfold presentSubKinds. rewrite list_elem_of_In, in_map_iff. split.
  - intros (k & <- & [Hk Hp]%filter_In). exists k.
    by rewrite list_elem_of_In.
  - intros (k & Hk & Hp & ->). exists k. split; [done |].
    apply filter_In. by rewrite <- list_elem_of_In.
Qed.

Lemma filter_sublist {A} (f : A → bool) (l : list A) :
  sublist (List.filter f l) l.
Proof.
  induction l as [| x l IH]; [done |]. cbn.
  destruct (f x); by constructor.
Qed.

Lemma map_sublist {A B} (f : A → B) (l1 l2 : list A) :
  sublist l1 l2 → sublist (map f l1) (map f l2).
Proof. induction 1; cbn; by constructor. Qed.

Lemma presentSubKinds_order sub :
  sublist (presentSubKinds sub) (map renamed MessageSubTypes).
Proof. apply map_sublist, filter_sublist. Qed.

(** C6: for an event classified as message, and for one classified as
    channel_post when [channelMode] is on, the constructor returns a facade
    whose secondary kinds are the sub-kinds whose fields the message-like
    object has, in the declaration order of [MessageSubTypes], with
    forward_date renamed to forward; for every other classification, and for
    channel_post when [channelMode] is off, the list is empty. *)
Theorem secondary_kinds u t o :
  (∀ sub,
     classify u = Some "message" →
     u !! "message" = Some (VObj sub) →
     TelegrafContext_new u t o
     = Ret (mkContext u t o (Some "message") (presentSubKinds sub) (Some ∅))) ∧
  (∀ sub,
     classify u = Some "channel_post" →
     channelMode o = Some true →
     u !! "channel_post" = Some (VObj sub) →
     TelegrafContext_new u t o
     = Ret (mkContext u t o (Some "channel_post") (presentSubKinds sub)
              (Some ∅))) ∧
  (classify u ≠ Some "message" →
   (classify u = Some "channel_post" → channelMode o ≠ Some true) →
   TelegrafContext_new u t o = Ret (mkContext u t o (classify u) [] (Some ∅))) ∧
  (∀ sub s,
     s ∈ presentSubKinds sub ↔
     ∃ k, k ∈ MessageSubTypes ∧ has_key sub k = true ∧ s = renamed k) ∧
  (∀ sub, sublist (presentSubKinds sub) (map renamed MessageSubTypes)) ∧
  renamed "forward_date" = "forward".
Proof.
  repeat split.
  - intros sub Hkind Hsub. rewrite construct_unfold, Hkind.
    rewrite (classifySubTypes_object u o "message" sub); auto.
  - intros sub Hkind Ho Hsub. rewrite construct_unfold, Hkind.
    rewrite (classifySubTypes_object u o "channel_post" sub); auto.
  - intros Hm Hc. rewrite construct_unfold.
    by rewrite classifySubTypes_other.
  - by apply presentSubKinds_elem.
  - by apply presentSubKinds_elem.
  - apply presentSubKinds_order.
Qed.

Lemma secondary_kinds_witness :
  TelegrafContext_new textMessage sampleClient noOptions
  = Ret (built textMessage noOptions (Some "message") ["text"; "forward"]) ∧
  TelegrafContext_new photoPost sampleClient channelOptions
  = Ret (built photoPost channelOptions (Some "channel_post") ["photo"]) ∧
  TelegrafContext_new photoPost sampleClient noOptions
  = Ret (built photoPost noOptions (Some "channel_post") []) ∧
  TelegrafContext_new inlineQueryUpdate sampleClient channelOptions
  = Ret (built inlineQueryUpdate channelOptions (Some "inline_query") []).
Proof.
  split; [| split; [| split]].
  - destruct (secondary_kinds textMessage sampleClient noOptions)
      as (Hmessage & _).
    by rewrite (Hmessage _ eq_refl eq_refl).
  - destruct (secondary_kinds photoPost sampleClient channelOptions)
      as (_ & Hpost & _).
    by rewrite (Hpost _ eq_refl eq_refl eq_refl).
  - destruct (secondary_kinds photoPost sampleClient noOptions)
      as (_ & _ & Hother & _).
    rewrite Hother; [done | by vm_compute | by vm_compute].
  - destruct (secondary_kinds inlineQueryUpdate sampleClient channelOptions)
      as (_ & _ & Hother & _).
    rewrite Hother; [done | by vm_compute | by vm_compute].
Defined.

(** ** Resolution chains *)

(** C7, as the code has it: the getter [chat] returns, changes nothing, and
    yields the chat field of the first present candidate in the order
    message, edited message, embedded message of the callback query, channel
    post, edited channel post; it yields [undefined] when none is present.
    For an event with a callback query whose embedded message is present,
    and with no message and no edited message of its own, this is the chat
    of the embedded message. *)
Theorem chat_resolution c :
  (∀ i v,
     chatCandidates (update c) !! i = Some v →
     nullish v = false →
     (∀ j w, j < i → chatCandidates (update c) !! j = Some w →
             nullish w = true) →
     chat c = (Ret (opt_member v "chat"), c)) ∧
  (Forall (λ v, nullish v = true) (chatCandidates (update c)) →
   chat c = (Ret VUndef, c)) ∧
  (∀ q m,
     nullish (field (update c) "message") = true →
     nullish (field (update c) "edited_message") = true →
     update c !! "callback_query" = Some (VObj q) →
     q !! "message" = Some (VObj m) →
     chat c = (Ret (field m "chat"), c)).
Proof.
  split; [| split].
  - intros i v Hi Hv Hbefore. rewrite chat_resolved.
    unfold resolvedChat. by rewrite (resolve_first _ _ i v).
  - intros Hnone. rewrite chat_resolved.
    unfold resolvedChat. by rewrite resolve_none.
  - intros q m Hm He Hq Hqm. rewrite chat_resolved.
    unfold resolvedChat, resolve, firstPresent, chatCandidates.
    cbn [find]. rewrite Hm, He. cbn [negb].
    rewrite (field_lookup _ _ _ Hq). cbn [opt_member].
    by rewrite (field_lookup _ _ _ Hqm).
Qed.

Lemma chat_resolution_witness :
  chat (built buttonPress noOptions (Some "callback_query") [])
  = (Ret (VObj {[ "id" := VNum 9 ]}),
     built buttonPress noOptions (Some "callback_query") []) ∧
  chat (built inlineQueryUpdate noOptions (Some "inline_query") [])
  = (Ret VUndef, built inlineQueryUpdate noOptions (Some "inline_query") []) ∧
  chat (built photoPost noOptions (Some "channel_post") [])
  = (Ret (VObj {[ "id" := VNum 6 ]}),
     built photoPost noOptions (Some "channel_post") []).
Proof.
  split; [| split].
  - destruct (chat_resolution
                (built buttonPress noOptions (Some "callback_query") []))
      as (_ & _ & Hbutton).
    by rewrite (Hbutton _ _ eq_refl eq_refl eq_refl eq_refl).
  - destruct (chat_resolution
                (built inlineQueryUpdate noOptions (Some "inline_query") []))
      as (_ & Hnone & _).
    apply Hnone. repeat constructor.
  - destruct (chat_resolution
                (built photoPost noOptions (Some "channel_post") []))
      as (Hfirst & _).
    rewrite (Hfirst 3 (field photoPost "channel_post")); [done.. |].
    intros j w Hj Hw.
    destruct j as [| [| [| j]]]; [injection Hw as <-; by vm_compute.. | lia].
Defined.

(** C7 fails on an event that has a message next to its callback query:
    the facade is classified as callback_query, the embedded message of the
    callback query carries the chat 9, and the resolved chat is the chat 5
    of the message. *)
Lemma chat_of_button_with_message :
  TelegrafContext_new messageAndButton sampleClient noOptions
  = Ret (built messageAndButton noOptions (Some "callback_query") []) ∧
  opt_member
    (opt_member (field messageAndButton "callback_query") "message") "chat"
  = VObj {[ "id" := VNum 9 ]} ∧
  eval chat (built messageAndButton noOptions (Some "callback_query") [])
  = Ret (VObj {[ "id" := VNum 5 ]}) ∧
  VObj {[ "id" := VNum 5 ]} ≠ VObj {[ "id" := VNum 9 ]}.
Proof.
  split; [| split; [| split]]; by vm_compute.
Qed.

(** C8: the getter [from] returns, changes nothing, and yields the from
    field of the first present candidate in the order message, edited
    message, callback query, inline query, channel post, edited channel
    post, shipping query, pre-checkout query, chosen inline result; it
    yields [undefined] when none is present.  Whenever the message is
    present, whatever else the event carries, this is the from field of the
    message. *)
Theorem sender_resolution c :
  (∀ i v,
     senderCandidates (update c) !! i = Some v →
     nullish v = false →
     (∀ j w, j < i → senderCandidates (update c) !! j = Some w →
             nullish w = true) →
     from c = (Ret (opt_member v "from"), c)) ∧
  (Forall (λ v, nullish v = true) (senderCandidates (update c)) →
   from c = (Ret VUndef, c)) ∧
  (∀ m,
     update c !! "message" = Some (VObj m) →
     from c = (Ret (field m "from"), c)).
Proof.
  split; [| split].
  - intros i v Hi Hv Hbefore. rewrite from_resolved.
    unfold resolvedSender. by rewrite (resolve_first _ _ i v).
  - intros Hnone. rewrite from_resolved.
    unfold resolvedSender. by rewrite resolve_none.
  - intros m Hm. rewrite from_resolved.
    unfold resolvedSender, resolve, firstPresent, senderCandidates.
    cbn [find]. by rewrite (field_lookup _ _ _ Hm).
Qed.

Lemma sender_resolution_witness :
  from (built messageAndButton noOptions (Some "callback_query") [])
  = (Ret (VObj {[ "id" := VNum 7 ]}),
     built messageAndButton noOptions (Some "callback_query") []) ∧
  from (built inlineQueryUpdate noOptions (Some "inline_query") [])
  = (Ret (VObj {[ "id" := VNum 7 ]}),
     built inlineQueryUpdate noOptions (Some "inline_query") []) ∧
  from (built unknownUpdate noOptions None [])
  = (Ret VUndef, built unknownUpdate noOptions None []).
Proof.
  split; [| split].
  - destruct (sender_resolution
                (built messageAndButton noOptions (Some "callback_query") []))
      as (_ & _ & Hmessage).
    by rewrite (Hmessage _ eq_refl).
  - destruct (sender_resolution
                (built inlineQueryUpdate noOptions (Some "inline_query") []))
      as (Hfirst & _).
    rewrite (Hfirst 3 (field inlineQueryUpdate "inline_query")); [done.. |].
    intros j w Hj Hw.
    destruct j as [| [| [| j]]]; [injection Hw as <-; by vm_compute.. | lia].
  - destruct (sender_resolution (built unknownUpdate noOptions None []))
      as (_ & Hnone & _).
    apply Hnone. repeat constructor.
Defined.

(** ** The guard *)

Lemma append_assoc (a b d : string) : (a +:+ b) +:+ d = a +:+ b +:+ d.
Proof.
  induction a as [| x a IH]; [done |].
  change (String x ((a +:+ b) +:+ d) = String x (a +:+ b +:+ d)).
  by rewrite IH.
Qed.

Lemma contains_middle (pre sub post : string) :
  contains (pre +:+ sub +:+ post) sub.
Proof. by exists pre, post. Qed.

Lemma append_nil_r (s : string) : s +:+ "" = s.
Proof.
  induction s as [| x s IH]; [done |].
  change (String x (s +:+ "") = String x s). by rewrite IH.
Qed.

Lemma contains_trans (whole part sub : string) :
  contains whole part → contains part sub → contains whole sub.
Proof.
  intros (p & q & ->) (p' & q' & ->). exists (p +:+ p'), (q' +:+ q).
  by rewrite !append_assoc.
Qed.

(** A list joined by a separator shows each of its elements. *)
Lemma concat_contains (sep : string) (l : list string) (s : string) :
  s ∈ l → contains (String.concat sep l) s.
Proof.
  induction l as [| x l IH]; intros Hin; [by apply elem_of_nil in Hin |].
  destruct l as [| y l].
  - apply elem_of_cons in Hin as [-> | Hin]; [| by apply elem_of_nil in Hin].
    exists "", "". cbn [String.concat]. by rewrite append_nil_r.
  - change (String.concat sep (x :: y :: l))
      with (x +:+ sep +:+ String.concat sep (y :: l)).
    apply elem_of_cons in Hin as [-> | Hin].
    + by exists "", (sep +:+ String.concat sep (y :: l)).
    + apply (contains_trans _ (String.concat sep (y :: l))); [| by apply IH].
      exists (x +:+ sep), "". by rewrite append_nil_r, append_assoc.
Qed.

(** The text of the guard, written out: the method, then the primary kind
    (the word undefined when there is none), two colons, and the
    secondary kinds separated by commas. *)
Lemma unavailable_text method c :
  unavailable method c
  = "Telegraf: " +:+ dquote +:+ method +:+ dquote
      +:+ " isn't available for " +:+ dquote
      +:+ default "undefined" (updateType c) +:+ "::"
      +:+ String.concat "," (updateSubTypes c) +:+ dquote.
Proof. done. Qed.

Lemma unavailable_shows method c :
  contains (unavailable method c) method ∧
  contains (unavailable method c)
    (default "undefined" (updateType c) +:+ "::"
       +:+ String.concat "," (updateSubTypes c)) ∧
  contains (unavailable method c) (default "undefined" (updateType c)) ∧
  contains (unavailable method c) (String.concat "," (updateSubTypes c)).
Proof.
  rewrite unavailable_text.
  assert (contains
            ("Telegraf: " +:+ dquote +:+ method +:+ dquote
               +:+ " isn't available for " +:+ dquote
               +:+ default "undefined" (updateType c) +:+ "::"
               +:+ String.concat "," (updateSubTypes c) +:+ dquote)
            (default "undefined" (updateType c) +:+ "::"
               +:+ String.concat "," (updateSubTypes c))) as Hpair.
  { exists ("Telegraf: " +:+ dquote +:+ method +:+ dquote
              +:+ " isn't available for " +:+ dquote), dquote.
    by rewrite !append_assoc. }
  split; [| split; [done |]; split].
  - rewrite <- (append_assoc "Telegraf: " dquote). apply contains_middle.
  - apply (contains_trans _ _ _ Hpair).
    exists "", ("::" +:+ String.concat "," (updateSubTypes c)). done.
  - apply (contains_trans _ _ _ Hpair).
    exists (default "undefined" (updateType c) +:+ "::"), "".
    by rewrite append_nil_r, append_assoc.
Qed.

Lemma assert_undefined method c :
  assert VUndef method c = (Throw (Error (unavailable method c)), c).
Proof. done. Qed.

Lemma assert_defined v method c :
  is_undefined v = false → assert v method c = (Ret (), c).
Proof. intros H. unfold assert. by rewrite H. Qed.

(** A guarded method fails in the guard, before the client is reached,
    when its subject is [undefined]. *)
Lemma guarded_absent subject f method op args c :
  Pure subject f → f c = VUndef →
  guarded subject method op args c
  = (Throw (Error (unavailable method c)), c).
Proof.
  intros Hs Hf. unfold guarded.
  rewrite (bind_pure _ _ _ _ Hs), Hf.
  unfold mbind at 1. unfold M_bind. by rewrite assert_undefined.
Qed.

(** It delegates, with the id of its subject first, when the subject is
    present. *)
Lemma guarded_present subject f method op args c :
  Pure subject f → nullish (f c) = false →
  guarded subject method op args c
  = invoke op (opt_member (f c) "id" :: args) c.
Proof.
  intros Hs Hf. unfold guarded.
  rewrite (bind_pure _ _ _ _ Hs).
  unfold mbind at 1. unfold M_bind at 1.
  rewrite assert_defined by (by destruct (f c)).
  rewrite (bind_pure _ _ _ _ telegram_pure).
  rewrite (bind_pure _ _ _ _ Hs).
  unfold lift, mbind, M_bind. by rewrite member_present.
Qed.

Lemma deleteMessage_absent messageId c :
  resolvedChat (update c) = VUndef →
  deleteMessage messageId c
  = (Throw (Error (unavailable "deleteMessage" c)), c).
Proof.
  intros Hf. unfold deleteMessage.
  rewrite (bind_pure _ _ _ _ chat_resolved), Hf.
  unfold mbind at 1. unfold M_bind. by rewrite assert_undefined.
Qed.

(** C4: on a facade whose resolved chat is [undefined], every method that
    requires a chat ends by throwing an [Error] and leaves the facade and
    the client as they were, so no call has reached the client.  The
    message of the error is the text of the guard: it shows the name of
    the method, the primary kind (the word undefined when there is none)
    and, after two colons, the secondary kinds separated by commas; so it
    shows the primary kind and each secondary kind of the facade. *)
Theorem chat_scoped_guard c name method args :
  (name, method) ∈ chatScoped →
  eval chat c = Ret VUndef →
  ∃ message,
    method args c = (Throw (Error message), c) ∧
    outbox (tg (method args c).2) = outbox (tg c) ∧
    message
    = "Telegraf: " +:+ dquote +:+ name +:+ dquote
        +:+ " isn't available for " +:+ dquote
        +:+ default "undefined" (updateType c) +:+ "::"
        +:+ String.concat "," (updateSubTypes c) +:+ dquote ∧
    contains message name ∧
    contains message (default "undefined" (updateType c)) ∧
    (∀ kind, updateType c = Some kind → contains message kind) ∧
    contains message (String.concat "," (updateSubTypes c)) ∧
    (∀ subKind, subKind ∈ updateSubTypes c → contains message subKind).
Proof.
  intros Hin Hchat.
  assert (resolvedChat (update c) = VUndef) as Hc.
  { unfold eval in Hchat. rewrite chat_resolved in Hchat.
    by injection Hchat. }
  assert (method args c = (Throw (Error (unavailable name c)), c)) as Hrun.
  { unfold chatScoped in Hin.
    each_member Hin; injection Hin as -> ->;
      first [ by apply (guarded_absent chat _ _ _ _ _ chat_resolved)
            | by apply deleteMessage_absent ]. }
  destruct (unavailable_shows name c) as (Hname & _ & Hkind & Hsub).
  exists (unavailable name c).
  split; [done |]. split; [by rewrite Hrun |].
  split; [apply unavailable_text |]. split; [done |]. split; [done |].
  split; [| split; [done |]].
  - intros kind Hk. by rewrite Hk in Hkind.
  - intros subKind Hs.
    by apply (contains_trans _ _ _ Hsub), concat_contains.
Qed.

Lemma chat_scoped_guard_witness :
  reply [VStr "hello"]
    (built inlineQueryUpdate noOptions (Some "inline_query") [])
  = (Throw (Error ("Telegraf: " +:+ dquote +:+ "reply" +:+ dquote
                   +:+ " isn't available for " +:+ dquote
                   +:+ "inline_query::" +:+ dquote)),
     built inlineQueryUpdate noOptions (Some "inline_query") []) ∧
  TelegrafContext_new chatlessText sampleClient noOptions
  = Ret (built chatlessText noOptions (Some "message") ["text"; "forward"]) ∧
  reply [VStr "hello"]
    (built chatlessText noOptions (Some "message") ["text"; "forward"])
  = (Throw (Error ("Telegraf: " +:+ dquote +:+ "reply" +:+ dquote
                   +:+ " isn't available for " +:+ dquote
                   +:+ "message::text,forward" +:+ dquote)),
     built chatlessText noOptions (Some "message") ["text"; "forward"]) ∧
  contains
    ("Telegraf: " +:+ dquote +:+ "reply" +:+ dquote
       +:+ " isn't available for " +:+ dquote
       +:+ "message::text,forward" +:+ dquote)
    "forward".
Proof.
  destruct (chat_scoped_guard
              (built inlineQueryUpdate noOptions (Some "inline_query") [])
              "reply" reply [VStr "hello"])
    as (message1 & Hrun1 & _ & Htext1 & _);
    [unfold chatScoped; in_list | by vm_compute |].
  destruct (chat_scoped_guard
              (built chatlessText noOptions (Some "message")
                 ["text"; "forward"])
              "reply" reply [VStr "hello"])
    as (message2 & Hrun2 & _ & Htext2 & _ & _ & _ & _ & Hsub);
    [unfold chatScoped; in_list | by vm_compute |].
  split; [by rewrite Hrun1, Htext1 |].
  split; [by vm_compute |].
  split; [by rewrite Hrun2, Htext2 |].
  assert (contains message2 "forward") as Hforward.
  { apply Hsub. cbn [updateSubTypes built]. in_list. }
  by rewrite Htext2 in Hforward.
Defined.

(** ** The edit family *)

Lemma pure_coalesce a b fa fb :
  Pure a fa → Pure b fb →
  Pure (a ?? b) (λ c, if nullish (fa c) then fb c else fa c).
Proof.
  intros Ha Hb c. unfold coalesce. rewrite (bind_pure _ _ _ _ Ha).
  destruct (nullish (fa c)); [apply Hb | done].
Qed.

(** [this.callbackQuery ?? this.inlineMessageId] *)
Lemma editSubject_pure :
  Pure (callbackQuery ?? inlineMessageId)
    (λ c, if nullish (field (update c) "callback_query")
          then resolvedInlineMessageId (update c)
          else field (update c) "callback_query").
Proof.
  apply pure_coalesce;
    [apply callbackQuery_pure | apply inlineMessageId_resolved].
Qed.

Lemma editSubject_undefined c :
  is_undefined
    (if nullish (field (update c) "callback_query")
     then resolvedInlineMessageId (update c)
     else field (update c) "callback_query")
  = editGuardFails c.
Proof.
  unfold editGuardFails.
  by destruct (field (update c) "callback_query").
Qed.

(** Runs the body of an edit method: the guard, then the getters that
    feed the call. *)
Ltac edit_method :=
  intros; unfold editOutcome;
  rewrite (bind_pure _ _ _ _ editSubject_pure);
  unfold assert; rewrite editSubject_undefined;
  destruct (editGuardFails _); [reflexivity |];
  unfold mbind at 1; unfold M_bind at 1; cbn [mret M_ret];
  rewrite (bind_pure _ _ _ _ telegram_pure);
  rewrite (bind_pure _ _ _ _ chat_resolved);
  rewrite (bind_pure _ _ _ _ callbackQuery_pure);
  rewrite (bind_pure _ _ _ _ inlineMessageId_resolved);
  reflexivity.

Lemma editMessageText_outcome text extra c :
  editMessageText text extra c
  = editOutcome "editMessageText" (λ ids, ids ++ [text; extra]) c.
Proof. unfold editMessageText. edit_method. Qed.

Lemma editMessageCaption_outcome caption extra c :
  editMessageCaption caption extra c
  = editOutcome "editMessageCaption" (λ ids, ids ++ [caption; extra]) c.
Proof. unfold editMessageCaption. edit_method. Qed.

Lemma editMessageMedia_outcome media extra c :
  editMessageMedia media extra c
  = editOutcome "editMessageMedia" (λ ids, ids ++ [media; extra]) c.
Proof. unfold editMessageMedia. edit_method. Qed.

Lemma editMessageReplyMarkup_outcome markup c :
  editMessageReplyMarkup markup c
  = editOutcome "editMessageReplyMarkup" (λ ids, ids ++ [markup]) c.
Proof. unfold editMessageReplyMarkup. edit_method. Qed.

Lemma editMessageLiveLocation_outcome latitude longitude markup c :
  editMessageLiveLocation latitude longitude markup c
  = editOutcome "editMessageLiveLocation"
      (λ ids, [latitude; longitude] ++ ids ++ [markup]) c.
Proof. unfold editMessageLiveLocation. edit_method. Qed.

Lemma stopMessageLiveLocation_outcome markup c :
  stopMessageLiveLocation markup c
  = editOutcome "stopMessageLiveLocation" (λ ids, ids ++ [markup]) c.
Proof. unfold stopMessageLiveLocation. edit_method. Qed.

(** C2, as the code has it: each edit method throws the error of the guard
    when the callback query is [undefined] or [null] and the
    inline-message-id is [undefined], and otherwise makes one call on the
    client that carries the id of the resolved chat, the message id of the
    callback query and the inline-message-id.  Five methods pass these three
    first and the arguments of the caller after them; editMessageLiveLocation
    passes the latitude and the longitude of the caller first, then the
    three, then the markup. *)
Theorem edit_family c :
  (∀ text extra,
     editMessageText text extra c
     = editOutcome "editMessageText" (λ ids, ids ++ [text; extra]) c) ∧
  (∀ caption extra,
     editMessageCaption caption extra c
     = editOutcome "editMessageCaption" (λ ids, ids ++ [caption; extra]) c) ∧
  (∀ media extra,
     editMessageMedia media extra c
     = editOutcome "editMessageMedia" (λ ids, ids ++ [media; extra]) c) ∧
  (∀ markup,
     editMessageReplyMarkup markup c
     = editOutcome "editMessageReplyMarkup" (λ ids, ids ++ [markup]) c) ∧
  (∀ latitude longitude markup,
     editMessageLiveLocation latitude longitude markup c
     = editOutcome "editMessageLiveLocation"
         (λ ids, [latitude; longitude] ++ ids ++ [markup]) c) ∧
  (∀ markup,
     stopMessageLiveLocation markup c
     = editOutcome "stopMessageLiveLocation" (λ ids, ids ++ [markup]) c).
Proof.
  repeat split; intros.
  - apply editMessageText_outcome.
  - apply editMessageCaption_outcome.
  - apply editMessageMedia_outcome.
  - apply editMessageReplyMarkup_outcome.
  - apply editMessageLiveLocation_outcome.
  - apply stopMessageLiveLocation_outcome.
Qed.

(** C2 fails on editMessageLiveLocation: on a callback query with the
    chat 9 and the message 20 the guard passes, and the call carries the
    latitude and the longitude before the three identifiers, so it is not
    the call with the identifiers first and the arguments of the caller
    after them. *)
Lemma live_location_identifiers_not_first :
  let c := built buttonPress noOptions (Some "callback_query") [] in
  editGuardFails c = false ∧
  addressing c = [VNum 9; VNum 20; VUndef] ∧
  outbox (tg (editMessageLiveLocation (VNum 48) (VNum 2) VUndef c).2)
  = [("editMessageLiveLocation",
      [VNum 48; VNum 2; VNum 9; VNum 20; VUndef; VUndef])] ∧
  editMessageLiveLocation (VNum 48) (VNum 2) VUndef c
  ≠ invoke "editMessageLiveLocation"
      (addressing c ++ [VNum 48; VNum 2; VUndef]) c.
Proof.
  cbv zeta. split; [| split; [| split]]; by vm_compute.
Qed.

Lemma editOutcome_passes method place c :
  editGuardFails c = false →
  editOutcome method place c = invoke method (place (addressing c)) c.
Proof. intros H. unfold editOutcome. by rewrite H. Qed.

(** On a callback query without an embedded message the chat comes from
    the fields of the event itself. *)
Lemma resolvedChat_own u :
  nullish (opt_member (field u "callback_query") "message") = true →
  resolvedChat u = resolve (ownChatCandidates u) "chat".
Proof.
  intros H.
  unfold resolvedChat, resolve, firstPresent, chatCandidates,
    ownChatCandidates.
  cbn [find].
  destruct (nullish (field u "message")); [| done].
  destruct (nullish (field u "edited_message")); [| done].
  cbn [negb]. by rewrite H.
Qed.

Lemma resolvedInlineMessageId_callback u :
  nullish (field u "callback_query") = false →
  resolvedInlineMessageId u
  = opt_member (field u "callback_query") "inline_message_id".
Proof.
  intros H.
  unfold resolvedInlineMessageId, resolve, firstPresent,
    inlineTargetCandidates.
  cbn [find]. by rewrite H.
Qed.

(** C3, as the code has it: when the callback query is present and carries
    neither an embedded message nor an inline_message_id, every edit method
    passes the guard and makes its call with the message id and the
    inline-message-id [undefined]; the chat id of the call is the id of the
    chat resolved from the message, edited message, channel post or edited
    channel post of the event, and [undefined] when the event has none of
    them. *)
Theorem edit_on_bare_callback_query c :
  nullish (field (update c) "callback_query") = false →
  nullish (opt_member (field (update c) "callback_query") "message") = true →
  opt_member (field (update c) "callback_query") "inline_message_id" = VUndef →
  let chatId :=
    opt_member (resolve (ownChatCandidates (update c)) "chat") "id" in
  (Forall (λ v, nullish v = true) (ownChatCandidates (update c)) →
   chatId = VUndef) ∧
  (∀ text extra,
     editMessageText text extra c
     = invoke "editMessageText" [chatId; VUndef; VUndef; text; extra] c) ∧
  (∀ caption extra,
     editMessageCaption caption extra c
     = invoke "editMessageCaption"
         [chatId; VUndef; VUndef; caption; extra] c) ∧
  (∀ media extra,
     editMessageMedia media extra c
     = invoke "editMessageMedia" [chatId; VUndef; VUndef; media; extra] c) ∧
  (∀ markup,
     editMessageReplyMarkup markup c
     = invoke "editMessageReplyMarkup" [chatId; VUndef; VUndef; markup] c) ∧
  (∀ latitude longitude markup,
     editMessageLiveLocation latitude longitude markup c
     = invoke "editMessageLiveLocation"
         [latitude; longitude; chatId; VUndef; VUndef; markup] c) ∧
  (∀ markup,
     stopMessageLiveLocation markup c
     = invoke "stopMessageLiveLocation" [chatId; VUndef; VUndef; markup] c).
Proof.
  intros Hq Hm Hi chatId.
  assert (editGuardFails c = false) as Hguard.
  { unfold editGuardFails. by rewrite Hq. }
  assert (addressing c = [chatId; VUndef; VUndef]) as Haddr.
  { unfold addressing.
    rewrite (resolvedChat_own _ Hm), (opt_member_nullish _ _ Hm).
    by rewrite (resolvedInlineMessageId_callback _ Hq), Hi. }
  split.
  { intros Hnone. unfold chatId. by rewrite resolve_none. }
  repeat split; intros.
  - by rewrite editMessageText_outcome, editOutcome_passes, Haddr.
  - by rewrite editMessageCaption_outcome, editOutcome_passes, Haddr.
  - by rewrite editMessageMedia_outcome, editOutcome_passes, Haddr.
  - by rewrite editMessageReplyMarkup_outcome, editOutcome_passes, Haddr.
  - by rewrite editMessageLiveLocation_outcome, editOutcome_passes, Haddr.
  - by rewrite stopMessageLiveLocation_outcome, editOutcome_passes, Haddr.
Qed.

Lemma edit_on_bare_callback_query_witness :
  editMessageText (VStr "done") VUndef
    (built bareButtonPress noOptions (Some "callback_query") [])
  = invoke "editMessageText" [VUndef; VUndef; VUndef; VStr "done"; VUndef]
      (built bareButtonPress noOptions (Some "callback_query") []).
Proof.
  destruct (edit_on_bare_callback_query
              (built bareButtonPress noOptions (Some "callback_query") []))
    as (Hnone & Htext & _); [by vm_compute.. |].
  rewrite Htext, Hnone; [done |].
  repeat constructor.
Defined.

(** C3 fails on an event that has a message next to such a callback
    query: the callback query is present with neither an embedded message
    nor an inline_message_id, the guard passes, and the call carries the
    chat id 5 of the message, not [undefined]. *)
Lemma bare_button_with_message_passes_chat_id :
  let c := built messageAndBareButton noOptions (Some "callback_query") [] in
  TelegrafContext_new messageAndBareButton sampleClient noOptions = Ret c ∧
  has_key (update c) "callback_query" = true ∧
  opt_member (field (update c) "callback_query") "message" = VUndef ∧
  opt_member (field (update c) "callback_query") "inline_message_id"
  = VUndef ∧
  eval (editMessageText (VStr "done") VUndef) c = Ret (VBool true) ∧
  outbox (tg (editMessageText (VStr "done") VUndef c).2)
  = [("editMessageText", [VNum 5; VUndef; VUndef; VStr "done"; VUndef])].
Proof.
  cbv zeta. repeat split; by vm_compute.
Qed.

(** ** deleteMessage *)

(** C9: on a facade whose resolved chat is present, deleteMessage with a
    message id makes the call for that id in the resolved chat and does not
    look at the message of the event; without a message id it makes the
    call for the id of the message of the event when that message is
    present, and throws the error of the guard, reaching no client, when
    that message is [undefined]. *)
Theorem deleteMessage_paths c :
  nullish (resolvedChat (update c)) = false →
  eval chat c = Ret (resolvedChat (update c)) ∧
  (∀ messageId,
     messageId ≠ VUndef →
     deleteMessage messageId c
     = invoke "deleteMessage"
         [opt_member (resolvedChat (update c)) "id"; messageId] c) ∧
  (nullish (field (update c) "message") = false →
   deleteMessage VUndef c
   = invoke "deleteMessage"
       [ opt_member (resolvedChat (update c)) "id";
         opt_member (field (update c) "message") "message_id" ] c) ∧
  (field (update c) "message" = VUndef →
   deleteMessage VUndef c
   = (Throw (Error (unavailable "deleteMessage" c)), c)).
Proof.
  intros Hchat.
  assert (is_undefined (resolvedChat (update c)) = false) as Hdef.
  { by destruct (resolvedChat (update c)). }
  split; [| split; [| split]].
  - unfold eval. by rewrite chat_resolved.
  - intros messageId Hid. unfold deleteMessage.
    rewrite (bind_pure _ _ _ _ chat_resolved).
    unfold mbind at 1. unfold M_bind at 1. rewrite (assert_defined _ _ _ Hdef).
    replace (negb (is_undefined messageId)) with true
      by (by destruct messageId).
    rewrite (bind_pure _ _ _ _ telegram_pure).
    rewrite (bind_pure _ _ _ _ chat_resolved).
    unfold lift, mbind, M_bind. by rewrite member_present.
  - intros Hm. unfold deleteMessage.
    rewrite (bind_pure _ _ _ _ chat_resolved).
    unfold mbind at 1. unfold M_bind at 1. rewrite (assert_defined _ _ _ Hdef).
    cbn [is_undefined negb].
    rewrite (bind_pure _ _ _ _ message_pure).
    unfold mbind at 1. unfold M_bind at 1.
    rewrite assert_defined by (by destruct (field (update c) "message")).
    rewrite (bind_pure _ _ _ _ telegram_pure).
    rewrite (bind_pure _ _ _ _ chat_resolved).
    unfold lift. unfold mbind at 1. unfold M_bind at 1.
    rewrite member_present by done.
    rewrite (bind_pure _ _ _ _ message_pure).
    unfold mbind, M_bind. by rewrite member_present.
  - intros Hm. unfold deleteMessage.
    rewrite (bind_pure _ _ _ _ chat_resolved).
    unfold mbind at 1. unfold M_bind at 1. rewrite (assert_defined _ _ _ Hdef).
    cbn [is_undefined negb].
    rewrite (bind_pure _ _ _ _ message_pure), Hm.
    unfold mbind, M_bind. by rewrite assert_undefined.
Qed.

Lemma deleteMessage_paths_witness :
  outbox (tg (deleteMessage (VNum 77)
                (built buttonPress noOptions (Some "callback_query") [])).2)
  = [("deleteMessage", [VNum 9; VNum 77])] ∧
  outbox (tg (deleteMessage VUndef
                (built textMessage noOptions (Some "message")
                   ["text"; "forward"])).2)
  = [("deleteMessage", [VNum 5; VNum 10])] ∧
  deleteMessage VUndef
    (built buttonPress noOptions (Some "callback_query") [])
  = (Throw (Error (unavailable "deleteMessage"
                     (built buttonPress noOptions (Some "callback_query") []))),
     built buttonPress noOptions (Some "callback_query") []).
Proof.
  split; [| split].
  - destruct (deleteMessage_paths
                (built buttonPress noOptions (Some "callback_query") []))
      as (_ & Hid & _); [by vm_compute |].
    by rewrite Hid.
  - destruct (deleteMessage_paths
                (built textMessage noOptions (Some "message")
                   ["text"; "forward"]))
      as (_ & _ & Hown & _); [by vm_compute |].
    by rewrite Hown.
  - destruct (deleteMessage_paths
                (built buttonPress noOptions (Some "callback_query") []))
      as (_ & _ & _ & Habsent); [by vm_compute |].
    by apply Habsent.
Defined.

(** ** Read accessors *)

(** C10: every read accessor returns a function of the event alone and
    leaves the facade as it was, so calling it twice in a row yields the
    same value twice; the same holds for reading the primary kind and the
    secondary kinds, which are fields of the facade. *)
Theorem read_accessors_idempotent :
  Forall
    (λ g : M value,
       ∃ h : gmap string value → value,
         ∀ c, g c = (Ret (h (update c)), c) ∧
              twice g c = (Ret (h (update c), h (update c)), c))
    readAccessors ∧
  (∀ c, twice readUpdateType c = (Ret (updateType c, updateType c), c)) ∧
  (∀ c, twice readUpdateSubTypes c
        = (Ret (updateSubTypes c, updateSubTypes c), c)).
Proof.
  assert (∀ (g : M value) h,
            Pure g (λ c, h (update c)) →
            ∃ h : gmap string value → value,
              ∀ c, g c = (Ret (h (update c)), c) ∧
                   twice g c = (Ret (h (update c), h (update c)), c))
    as Hread.
  { intros g h Hg. exists h. intros c. split; [apply Hg |].
    apply (twice_pure g (λ c, h (update c)) c Hg). }
  split; [| split].
  - unfold readAccessors. repeat apply Forall_cons_2; [.. | apply Forall_nil_2].
    + by apply (Hread message (λ u, field u "message")).
    + by apply (Hread editedMessage (λ u, field u "edited_message")).
    + by apply (Hread inlineQuery (λ u, field u "inline_query")).
    + by apply (Hread shippingQuery (λ u, field u "shipping_query")).
    + by apply (Hread preCheckoutQuery (λ u, field u "pre_checkout_query")).
    + by apply (Hread chosenInlineResult
                  (λ u, field u "chosen_inline_result")).
    + by apply (Hread channelPost (λ u, field u "channel_post")).
    + by apply (Hread editedChannelPost
                  (λ u, field u "edited_channel_post")).
    + by apply (Hread callbackQuery (λ u, field u "callback_query")).
    + by apply (Hread poll (λ u, field u "poll")).
    + by apply (Hread pollAnswer (λ u, field u "poll_answer")).
    + apply (Hread chat resolvedChat), chat_resolved.
    + apply (Hread from resolvedSender), from_resolved.
    + apply (Hread inlineMessageId resolvedInlineMessageId),
        inlineMessageId_resolved.
    + by apply (Hread passportData
                  (λ u, opt_member (field u "message") "passport_data")).
  - intros c. by apply (twice_pure readUpdateType updateType).
  - intros c. by apply (twice_pure readUpdateSubTypes updateSubTypes).
Qed.

(** ** End to end *)

Example hiMessage_facade :
  let c := built hiMessage noOptions (Some "message") ["text"] in
  TelegrafContext_new hiMessage sampleClient noOptions = Ret c ∧
  eval chat c = Ret (VObj {[ "id" := VNum 5 ]}) ∧
  eval from c = Ret (VObj {[ "id" := VNum 7 ]}) ∧
  eval (reply [VStr "hello"; VUndef]) c = Ret (VBool true) ∧
  outbox (tg (reply [VStr "hello"; VUndef] c).2)
  = [("sendMessage", [VNum 5; VStr "hello"; VUndef])].
Proof. cbv zeta. repeat split; by vm_compute. Qed.

Example replyWithHTML_merges_options :
  outbox (tg (replyWithHTML (VStr "<b>hi</b>")
                (VObj {[ "disable_notification" := VBool true ]})
                (built hiMessage noOptions (Some "message") ["text"])).2)
  = [("sendMessage",
      [ VNum 5;
        VStr "<b>hi</b>";
        VObj {[ "parse_mode" := VStr "HTML";
                "disable_notification" := VBool true ]} ])].
Proof. by vm_compute. Qed.

(** The [in] operator throws on a primary field that holds [null]. *)
Example nullMessage_throws :
  TelegrafContext_new nullMessage sampleClient noOptions = Throw TypeError.
Proof. by vm_compute. Qed.

Example inline_query_cannot_reply :
  eval (reply [VStr "hello"])
    (built inlineQueryUpdate noOptions (Some "inline_query") [])
  = Throw (Error ("Telegraf: " +:+ dquote +:+ "reply" +:+ dquote
                  +:+ " isn't available for " +:+ dquote
                  +:+ "inline_query::" +:+ dquote)).
Proof. by vm_compute. Qed.

Example state_is_created_once :
  let c := built hiMessage noOptions (Some "message") ["text"] in
  state (set_contextState None c) = (Ret ∅, c) ∧ state c = (Ret ∅, c).
Proof. cbv zeta. split; by vm_compute. Qed.

(** * Further properties *)

(** ** Calls on the client *)

Lemma invoke_sameButOutbox op args c : sameButOutbox c (invoke op args c).2.
Proof. by repeat split. Qed.

Lemma invoke_outbox op args c :
  outbox (tg (invoke op args c).2) = outbox (tg c) ++ [(op, args)].
Proof. done. Qed.

Lemma invoke_result op args c : (invoke op args c).1 = api (tg c) op args.
Proof. done. Qed.

Lemma sameButOutbox_refl c : sameButOutbox c c.
Proof. by repeat split. Qed.

(** A guarded method ends in one of the three ways of [guardedOutcome]. *)
Lemma guarded_cases subject f method op args c :
  Pure subject f →
  guarded subject method op args c = guardedOutcome (f c) method op args c.
Proof.
  intros Hs. unfold guardedOutcome.
  destruct (f c) eqn:Hf.
  - by apply (guarded_absent subject f).
  - unfold guarded. rewrite (bind_pure _ _ _ _ Hs), Hf.
    unfold mbind at 1. unfold M_bind at 1.
    rewrite assert_defined by done.
    rewrite (bind_pure _ _ _ _ telegram_pure).
    rewrite (bind_pure _ _ _ _ Hs), Hf. done.
  - rewrite <- Hf. apply (guarded_present subject f); [done |]. by rewrite Hf.
  - rewrite <- Hf. apply (guarded_present subject f); [done |]. by rewrite Hf.
  - rewrite <- Hf. apply (guarded_present subject f); [done |]. by rewrite Hf.
  - rewrite <- Hf. apply (guarded_present subject f); [done |]. by rewrite Hf.
Qed.

(** Whatever way it ends, it leaves the facade as it was up to the calls
    recorded, and it records at most its own call. *)
Lemma guardedOutcome_frame subject method op args c :
  sameButOutbox c (guardedOutcome subject method op args c).2 ∧
  (outbox (tg (guardedOutcome subject method op args c).2) = outbox (tg c) ∨
   outbox (tg (guardedOutcome subject method op args c).2)
   = outbox (tg c) ++ [(op, opt_member subject "id" :: args)]).
Proof.
  destruct subject; cbn [guardedOutcome];
    (split; [first [apply sameButOutbox_refl | apply invoke_sameButOutbox] |]);
    first [by left | by right].
Qed.

Lemma inlineQuery_pure :
  Pure inlineQuery (λ c, field (update c) "inline_query").
Proof. done. Qed.

Lemma shippingQuery_pure :
  Pure shippingQuery (λ c, field (update c) "shipping_query").
Proof. done. Qed.

Lemma preCheckoutQuery_pure :
  Pure preCheckoutQuery (λ c, field (update c) "pre_checkout_query").
Proof. done. Qed.

(** ** Methods that inject one identifier *)

(** X1: every chat-scoped method that forwards its arguments ends in one of
    three ways, decided by the resolved chat alone: the error of the guard
    when it is [undefined], a [TypeError] when it is [null], and otherwise
    exactly one call of its operation on the client, with the id of the
    resolved chat in front of the arguments of the caller, unchanged.  The
    two sticker-set methods do the same with their fixed arguments. *)
Theorem chat_scoped_delegation c name op method args :
  (name, op, method) ∈ chatOperations →
  method args c = guardedOutcome (resolvedChat (update c)) name op args c ∧
  (∀ setName,
     setChatStickerSet setName c
     = guardedOutcome (resolvedChat (update c)) "setChatStickerSet"
         "setChatStickerSet" [setName] c) ∧
  deleteChatStickerSet c
  = guardedOutcome (resolvedChat (update c)) "deleteChatStickerSet"
      "deleteChatStickerSet" [] c.
Proof.
  intros Hin. split; [| split].
  - unfold chatOperations in Hin.
    each_member Hin; injection Hin as -> -> ->;
      apply (guarded_cases chat _ _ _ _ _ chat_resolved).
  - intros setName. apply (guarded_cases chat _ _ _ _ _ chat_resolved).
  - apply (guarded_cases chat _ _ _ _ _ chat_resolved).
Qed.

Lemma chat_scoped_delegation_witness :
  replyWithPhoto [VStr "file"; VUndef]
    (built photoPost channelOptions (Some "channel_post") ["photo"])
  = invoke "sendPhoto" [VNum 6; VStr "file"; VUndef]
      (built photoPost channelOptions (Some "channel_post") ["photo"]).
Proof.
  destruct (chat_scoped_delegation
              (built photoPost channelOptions (Some "channel_post") ["photo"])
              "replyWithPhoto" "sendPhoto" replyWithPhoto
              [VStr "file"; VUndef]) as (Hrun & _).
  - unfold chatOperations. in_list.
  - by rewrite Hrun.
Defined.

(** X2: every query-scoped method looks only at the query of its own kind:
    it throws the error of the guard when that field of the event is
    [undefined], whatever chat or sender the event resolves to, and
    otherwise makes exactly one call of the operation of its own name with
    the id of that query in front of the arguments of the caller. *)
Theorem query_scoped_contract c name key method args :
  (name, key, method) ∈ queryScoped →
  method args c = guardedOutcome (field (update c) key) name name args c ∧
  (field (update c) key = VUndef →
   method args c = (Throw (Error (unavailable name c)), c)) ∧
  (∀ q, update c !! key = Some (VObj q) →
        method args c = invoke name (field q "id" :: args) c).
Proof.
  intros Hin.
  assert (method args c
          = guardedOutcome (field (update c) key) name name args c) as Hrun.
  { unfold queryScoped in Hin.
    each_member Hin; injection Hin as -> -> ->.
    - apply (guarded_cases inlineQuery _ _ _ _ _ inlineQuery_pure).
    - apply (guarded_cases callbackQuery _ _ _ _ _ callbackQuery_pure).
    - apply (guarded_cases callbackQuery _ _ _ _ _ callbackQuery_pure).
    - apply (guarded_cases shippingQuery _ _ _ _ _ shippingQuery_pure).
    - apply (guarded_cases preCheckoutQuery _ _ _ _ _ preCheckoutQuery_pure). }
  split; [done |]. split.
  - intros Hk. by rewrite Hrun, Hk.
  - intros q Hq. by rewrite Hrun, (field_lookup _ _ _ Hq).
Qed.

Lemma query_scoped_contract_witness :
  answerInlineQuery [VStr "results"]
    (built inlineQueryUpdate noOptions (Some "inline_query") [])
  = invoke "answerInlineQuery" [VStr "q"; VStr "results"]
      (built inlineQueryUpdate noOptions (Some "inline_query") []) ∧
  answerCbQuery [VStr "ok"]
    (built textMessage noOptions (Some "message") ["text"; "forward"])
  = (Throw (Error (unavailable "answerCbQuery"
                     (built textMessage noOptions (Some "message")
                        ["text"; "forward"]))),
     built textMessage noOptions (Some "message") ["text"; "forward"]).
Proof.
  split.
  - destruct (query_scoped_contract
                (built inlineQueryUpdate noOptions (Some "inline_query") [])
                "answerInlineQuery" "inline_query" answerInlineQuery
                [VStr "results"]) as (_ & _ & Hpresent).
    + unfold queryScoped. in_list.
    + by rewrite (Hpresent _ eq_refl).
  - destruct (query_scoped_contract
                (built textMessage noOptions (Some "message")
                   ["text"; "forward"])
                "answerCbQuery" "callback_query" answerCbQuery
                [VStr "ok"]) as (_ & Habsent & _).
    + unfold queryScoped. in_list.
    + apply Habsent. by vm_compute.
Defined.

(** X3: every user-scoped method is decided by the resolved sender alone:
    the error of the guard when it is [undefined], and otherwise exactly one
    call of the operation of its own name with the id of the sender in
    front of the arguments of the caller; setPassportDataErrors does the
    same with its one argument. *)
Theorem user_scoped_contract c name method args :
  (name, method) ∈ userScoped →
  method args c = guardedOutcome (resolvedSender (update c)) name name args c ∧
  (∀ errors,
     setPassportDataErrors errors c
     = guardedOutcome (resolvedSender (update c)) "setPassportDataErrors"
         "setPassportDataErrors" [errors] c).
Proof.
  intros Hin. split.
  - unfold userScoped in Hin.
    each_member Hin; injection Hin as -> ->;
      apply (guarded_cases from _ _ _ _ _ from_resolved).
  - intros errors. apply (guarded_cases from _ _ _ _ _ from_resolved).
Qed.

Lemma user_scoped_contract_witness :
  uploadStickerFile [VStr "png"]
    (built inlineQueryUpdate noOptions (Some "inline_query") [])
  = invoke "uploadStickerFile" [VNum 7; VStr "png"]
      (built inlineQueryUpdate noOptions (Some "inline_query") []).
Proof.
  destruct (user_scoped_contract
              (built inlineQueryUpdate noOptions (Some "inline_query") [])
              "uploadStickerFile" uploadStickerFile [VStr "png"])
    as (Hrun & _).
  - unfold userScoped. in_list.
  - by rewrite Hrun.
Defined.

(** ** Classification *)

Lemma find_before (f : string → bool) l a :
  NoDup l → find f l = Some a →
  ∀ b, declaredBefore l b a → f b = false.
Proof.
  induction l as [| x l IH]; intros Hl Hfind b (i & j & Hi & Hj & Hij);
    [done |].
  apply NoDup_cons in Hl as [Hx Hl]. cbn in Hfind.
  destruct (f x) eqn:Hfx.
  - injection Hfind as ->. destruct j as [| j]; [lia |].
    cbn in Hj. destruct Hx. apply list_elem_of_lookup. eauto.
  - destruct i as [| i]; cbn in Hi.
    + by injection Hi as <-.
    + destruct j as [| j]; [lia |]. cbn in Hj.
      apply (IH Hl Hfind). exists i, j. repeat split; [done.. | lia].
Qed.

(** X4: the primary kind is [k] exactly when [k] is a kind of the taxonomy
    whose field the event has while it has the field of no kind declared
    before [k]; the primary kind is [undefined] exactly when the event has
    the field of no kind of the taxonomy. *)
Theorem classify_characterised u :
  (∀ k,
     classify u = Some k ↔
     k ∈ UpdateTypes ∧ has_key u k = true ∧
     ∀ b, declaredBefore UpdateTypes b k → has_key u b = false) ∧
  (classify u = None ↔ ∀ k, k ∈ UpdateTypes → has_key u k = false).
Proof.
  unfold classify. split; [intros k |]; split.
  - intros Hfind. destruct (find_some _ _ Hfind) as [Hin Hk].
    split; [by apply list_elem_of_In |]. split; [done |].
    by apply (find_before _ _ _ UpdateTypes_NoDup Hfind).
  - intros (Hin & Hk & Hbefore). by apply find_earliest.
  - intros Hnone k Hk. apply (find_none _ _ Hnone). by apply list_elem_of_In.
  - apply find_absent.
Qed.

(** ** The constructor *)

Lemma filterRes_non_object v x l :
  is_object v = false →
  filterRes (λ key, js_in key v) (x :: l) = Throw (A := list string) TypeError.
Proof. intros Hv. cbn [filterRes]. by destruct v. Qed.

Lemma classifySubTypes_scan u o :
  classifySubTypes u o (classify u) =
  if scansSubKinds u o
  then match scannedObject u with
       | VObj sub => Ret (presentSubKinds sub)
       | _ => Throw TypeError
       end
  else Ret [].
Proof.
  unfold classifySubTypes.
  change (bool_decide (classify u = Some "message")
          || bool_decide (channelMode o = Some true)
             && bool_decide (classify u = Some "channel_post"))
    with (scansSubKinds u o).
  change (field u (default "undefined" (classify u))) with (scannedObject u).
  destruct (scansSubKinds u o); [| done].
  destruct (scannedObject u) as [| | | | | sub] eqn:Hobj;
    try (unfold MessageSubTypes; by rewrite filterRes_non_object).
  rewrite filterRes_object. unfold mbind, Res_bind, presentSubKinds.
  f_equal. apply map_ext, mapSubType_renamed.
Qed.

(** X5: the constructor throws exactly when the secondary kinds are
    scanned, that is for the primary kind message, or channel_post under
    channelMode, and the field of that kind does not hold an object; what
    it throws then is the [TypeError] of the [in] operator.  In every other
    case it returns a facade. *)
Theorem construct_throws u t o :
  (∀ e,
     TelegrafContext_new u t o = Throw e ↔
     e = TypeError ∧ scansSubKinds u o = true ∧
     is_object (scannedObject u) = false) ∧
  ((∃ c, TelegrafContext_new u t o = Ret c) ↔
   scansSubKinds u o = false ∨ is_object (scannedObject u) = true).
Proof.
  rewrite construct_unfold, classifySubTypes_scan.
  destruct (scansSubKinds u o) eqn:Hscan.
  - destruct (scannedObject u) as [| | | | | sub] eqn:Hobj; cbn [is_object];
      (split; [intros e; split; [intros [= <-]; done | by intros (-> & _ & _)]
              | split; [intros [c [=]] | intros [[=] | [=]]]])
      || idtac.
    split; [intros e; split; [done | by intros (_ & _ & [=])] |].
    split; [intros _; by right | intros _; by eexists].
  - split; [intros e; split; [done | by intros (_ & [=] & _)] |].
    split; [intros _; by left | intros _; by eexists].
Qed.

Lemma construct_returns u t o c :
  TelegrafContext_new u t o = Ret c →
  ∃ subKinds,
    c = mkContext u t o (classify u) subKinds (Some ∅) ∧
    classifySubTypes u o (classify u) = Ret subKinds.
Proof.
  rewrite construct_unfold.
  destruct (classifySubTypes u o (classify u)) as [subKinds |]; [| done].
  intros [= <-]. by exists subKinds.
Qed.

(** X6: a facade the constructor returns holds the event, the client and
    the options it was given, untouched, so that construction has made no
    call on the client; its primary kind is the classification of the
    event; and its state bag already exists and is empty, so that the
    first read of [state] changes nothing. *)
Theorem construct_frame u t o c :
  TelegrafContext_new u t o = Ret c →
  update c = u ∧ tg c = t ∧ options c = o ∧
  updateType c = classify u ∧
  contextState c = Some ∅ ∧
  state c = (Ret ∅, c).
Proof.
  intros (subKinds & -> & _)%construct_returns. by repeat split.
Qed.

Lemma construct_frame_witness :
  state (built textMessage noOptions (Some "message") ["text"; "forward"])
  = (Ret ∅, built textMessage noOptions (Some "message") ["text"; "forward"]).
Proof.
  apply (construct_frame textMessage sampleClient noOptions
           (built textMessage noOptions (Some "message") ["text"; "forward"])).
  by vm_compute.
Defined.

(** ** Invariants of the secondary kinds *)

Lemma renamed_taxonomy_NoDup : NoDup (map renamed MessageSubTypes).
Proof. apply (bool_decide_unpack _). by vm_compute. Qed.

Lemma forward_date_not_renamed : "forward_date" ∉ map renamed MessageSubTypes.
Proof. apply (bool_decide_unpack _). by vm_compute. Qed.

Lemma forward_not_declared : "forward" ∉ MessageSubTypes.
Proof. apply (bool_decide_unpack _). by vm_compute. Qed.

Lemma forward_date_declared : "forward_date" ∈ MessageSubTypes.
Proof. apply (bool_decide_unpack _). by vm_compute. Qed.

Lemma presentSubKinds_forward sub :
  "forward" ∈ presentSubKinds sub ↔ has_key sub "forward_date" = true.
Proof.
  rewrite presentSubKinds_elem. split.
  - intros (k & Hk & Hp & Hr). unfold renamed in Hr.
    destruct (String.eqb_spec k "forward_date") as [-> | Hne]; [done |].
    subst k. by destruct forward_not_declared.
  - intros Hp. exists "forward_date".
    split; [apply forward_date_declared | done].
Qed.

(** X7: the secondary kinds of a facade the constructor returns never
    repeat a kind, are a sub-sequence of the renamed taxonomy (at most 31
    kinds), and never hold the raw name forward_date; they are empty when
    the event is not scanned; and they hold forward exactly when the
    scanned object has the field forward_date. *)
Theorem secondary_kinds_invariants u t o c :
  TelegrafContext_new u t o = Ret c →
  NoDup (updateSubTypes c) ∧
  sublist (updateSubTypes c) (map renamed MessageSubTypes) ∧
  (List.length (updateSubTypes c) ≤ 31)%nat ∧
  ("forward_date" ∉ updateSubTypes c) ∧
  (scansSubKinds u o = false → updateSubTypes c = []) ∧
  ("forward" ∈ updateSubTypes c ↔
   scansSubKinds u o = true ∧
   ∃ sub, scannedObject u = VObj sub ∧ has_key sub "forward_date" = true).
Proof.
  intros (subKinds & -> & Hsub)%construct_returns.
  rewrite classifySubTypes_scan in Hsub. cbn [updateSubTypes].
  assert (sublist subKinds (map renamed MessageSubTypes)) as Hsl.
  { destruct (scansSubKinds u o).
    - destruct (scannedObject u); try done.
      injection Hsub as <-. apply presentSubKinds_order.
    - injection Hsub as <-. apply sublist_nil_l. }
  split; [by apply (sublist_NoDup _ _ renamed_taxonomy_NoDup) |].
  split; [done |].
  split; [apply (sublist_length _ _ Hsl) |].
  split.
  { intros Hin. apply forward_date_not_renamed.
    by apply (elem_of_sublist _ _ _ Hin). }
  destruct (scansSubKinds u o).
  - split; [done |].
    destruct (scannedObject u) as [| | | | | sub]; try done.
    injection Hsub as <-. rewrite presentSubKinds_forward. split.
    + intros Hp. split; [done |]. by exists sub.
    + by intros (_ & sub' & [= <-] & Hp).
  - injection Hsub as <-. split; [done |]. split.
    + by intros ?%elem_of_nil.
    + by intros ([=] & _).
Qed.

Lemma secondary_kinds_invariants_witness :
  NoDup ["text"; "forward"] ∧
  ("forward_date" ∉ ["text"; "forward"]).
Proof.
  destruct (secondary_kinds_invariants textMessage sampleClient noOptions
              (built textMessage noOptions (Some "message")
                 ["text"; "forward"]))
    as (Hnodup & _ & _ & Hraw & _); [by vm_compute |].
  by split.
Defined.

(** ** Methods without a guard *)

(** The six pass-through methods consult nothing of the event: on every
    facade each ends as its one call on the client ends, with exactly the
    arguments of the caller. *)
Lemma pass_through_methods c :
  (∀ setName, getStickerSet setName c = invoke "getStickerSet" [setName] c) ∧
  (∀ sticker position,
     setStickerPositionInSet sticker position c
     = invoke "setStickerPositionInSet" [sticker; position] c) ∧
  (∀ args, setStickerSetThumb args c = invoke "setStickerSetThumb" args c) ∧
  (∀ sticker,
     deleteStickerFromSet sticker c
     = invoke "deleteStickerFromSet" [sticker] c) ∧
  getMyCommands c = invoke "getMyCommands" [] c ∧
  (∀ commands, setMyCommands commands c = invoke "setMyCommands" [commands] c).
Proof. by repeat split. Qed.

(** ** Formatted replies *)

Lemma withParseMode_object mode extra :
  ∃ r, withParseMode mode extra = VObj r.
Proof. unfold withParseMode. by eexists. Qed.

(** The options a formatted reply sends: the keys of the caller win, and
    the parse mode is added when the caller names none. *)
Lemma withParseMode_lookup mode o k :
  opt_member (withParseMode mode (VObj o)) k =
  if has_key o k then field o k
  else if String.eqb k "parse_mode" then VStr mode else VUndef.
Proof.
  unfold withParseMode, opt_member, field, has_key.
  rewrite lookup_union.
  destruct (o !! k) as [v |] eqn:Hk.
  - rewrite bool_decide_eq_true_2 by eauto.
    cbn. by destruct ({[ "parse_mode" := VStr mode ]} !! k).
  - rewrite bool_decide_eq_false_2 by (by intros [? [=]]).
    destruct (String.eqb_spec k "parse_mode") as [-> | Hne].
    + by rewrite lookup_singleton_eq.
    + by rewrite lookup_singleton_ne.
Qed.

Lemma withParseMode_default mode extra k :
  is_object extra = false →
  opt_member (withParseMode mode extra) k =
  if String.eqb k "parse_mode" then VStr mode else VUndef.
Proof.
  intros Hextra. unfold withParseMode, opt_member, field.
  destruct (String.eqb_spec k "parse_mode") as [-> | Hne];
    destruct extra; try done;
    by rewrite ?lookup_singleton_eq, ?lookup_singleton_ne.
Qed.

(** X8: replyWithMarkdown, replyWithMarkdownV2 and replyWithHTML, given
    options that are an object or hold no own properties (anything but a
    string), are reply with a second argument built from these options:
    they end as reply ends, so without a chat the error names reply, not
    the method that was called; the options sent keep every key of the
    caller unchanged, a parse_mode of the caller included, and gain the
    parse mode of the method only when the caller set none. *)
Theorem formatted_replies c text extra :
  (∀ s, extra ≠ VStr s) →
  replyWithMarkdown text extra c
  = guardedOutcome (resolvedChat (update c)) "reply" "sendMessage"
      [text; withParseMode "Markdown" extra] c ∧
  replyWithMarkdownV2 text extra c
  = guardedOutcome (resolvedChat (update c)) "reply" "sendMessage"
      [text; withParseMode "MarkdownV2" extra] c ∧
  replyWithHTML text extra c
  = guardedOutcome (resolvedChat (update c)) "reply" "sendMessage"
      [text; withParseMode "HTML" extra] c ∧
  (∀ mode o k,
     extra = VObj o →
     opt_member (withParseMode mode extra) k =
     if has_key o k then field o k
     else if String.eqb k "parse_mode" then VStr mode else VUndef) ∧
  (∀ mode k,
     is_object extra = false →
     opt_member (withParseMode mode extra) k =
     if String.eqb k "parse_mode" then VStr mode else VUndef).
Proof.
  intros _. repeat split.
  - apply (guarded_cases chat _ _ _ _ _ chat_resolved).
  - apply (guarded_cases chat _ _ _ _ _ chat_resolved).
  - apply (guarded_cases chat _ _ _ _ _ chat_resolved).
  - intros mode o k ->. apply withParseMode_lookup.
  - intros mode k Hextra. by apply withParseMode_default.
Qed.

Lemma formatted_replies_witness :
  replyWithHTML (VStr "hi") (VObj {[ "parse_mode" := VStr "Markdown" ]})
    (built hiMessage noOptions (Some "message") ["text"])
  = invoke "sendMessage"
      [VNum 5; VStr "hi"; VObj {[ "parse_mode" := VStr "Markdown" ]}]
      (built hiMessage noOptions (Some "message") ["text"]) ∧
  replyWithMarkdown (VStr "hi") VUndef
    (built inlineQueryUpdate noOptions (Some "inline_query") [])
  = (Throw (Error (unavailable "reply"
                     (built inlineQueryUpdate noOptions
                        (Some "inline_query") []))),
     built inlineQueryUpdate noOptions (Some "inline_query") []).
Proof.
  split.
  - destruct (formatted_replies
                (built hiMessage noOptions (Some "message") ["text"])
                (VStr "hi") (VObj {[ "parse_mode" := VStr "Markdown" ]}))
      as (_ & _ & Hhtml & _); [done |].
    rewrite Hhtml. by vm_compute.
  - destruct (formatted_replies
                (built inlineQueryUpdate noOptions (Some "inline_query") [])
                (VStr "hi") VUndef)
      as (Hmarkdown & _); [done |].
    rewrite Hmarkdown. by vm_compute.
Defined.

(** ** forwardMessage *)

(** X9: forwardMessage requires the message of the event itself, not a
    resolved chat: when the event has no message it throws the error of the
    guard and reaches no client, also when a chat is resolved from another
    field; when the message is present and carries its chat it makes one
    call with the target chat of the caller first, then the id of the chat
    of the message, the id of the message and the options of the caller;
    and a message without a chat ends in a [TypeError] before the client is
    reached. *)
Theorem forwardMessage_contract c chatId extra :
  (field (update c) "message" = VUndef →
   forwardMessage chatId extra c
   = (Throw (Error (unavailable "forwardMessage" c)), c)) ∧
  (∀ m,
     update c !! "message" = Some (VObj m) →
     nullish (field m "chat") = false →
     forwardMessage chatId extra c
     = invoke "forwardMessage"
         [chatId; opt_member (field m "chat") "id"; field m "message_id";
          extra] c) ∧
  (∀ m,
     update c !! "message" = Some (VObj m) →
     nullish (field m "chat") = true →
     forwardMessage chatId extra c = (Throw TypeError, c)).
Proof.
  unfold forwardMessage. split; [| split].
  - intros Hm. rewrite (bind_pure _ _ _ _ message_pure), Hm.
    unfold mbind, M_bind. by rewrite assert_undefined.
  - intros m Hm Hchat. apply field_lookup in Hm.
    rewrite (bind_pure _ _ _ _ message_pure), Hm.
    unfold mbind at 1. unfold M_bind at 1. rewrite assert_defined by done.
    rewrite (bind_pure _ _ _ _ telegram_pure).
    rewrite (bind_pure _ _ _ _ message_pure), Hm.
    unfold lift. unfold mbind at 1. unfold M_bind at 1. cbn [member].
    unfold mbind at 1. unfold M_bind at 1.
    rewrite (member_present _ _ Hchat).
    by rewrite (bind_pure _ _ _ _ message_pure), Hm.
  - intros m Hm Hchat. apply field_lookup in Hm.
    rewrite (bind_pure _ _ _ _ message_pure), Hm.
    unfold mbind at 1. unfold M_bind at 1. rewrite assert_defined by done.
    rewrite (bind_pure _ _ _ _ telegram_pure).
    rewrite (bind_pure _ _ _ _ message_pure), Hm.
    unfold lift. unfold mbind at 1. unfold M_bind at 1. cbn [member].
    unfold mbind at 1. unfold M_bind at 1.
    by destruct (field m "chat").
Qed.

Lemma forwardMessage_contract_witness :
  forwardMessage (VNum 99) VUndef
    (built photoPost channelOptions (Some "channel_post") ["photo"])
  = (Throw (Error (unavailable "forwardMessage"
                     (built photoPost channelOptions (Some "channel_post")
                        ["photo"]))),
     built photoPost channelOptions (Some "channel_post") ["photo"]) ∧
  forwardMessage (VNum 99) VUndef
    (built hiMessage noOptions (Some "message") ["text"])
  = invoke "forwardMessage" [VNum 99; VNum 5; VNum 10; VUndef]
      (built hiMessage noOptions (Some "message") ["text"]) ∧
  forwardMessage (VNum 99) VUndef
    (built chatlessMessage noOptions (Some "message") [])
  = (Throw TypeError, built chatlessMessage noOptions (Some "message") []).
Proof.
  split; [| split].
  - destruct (forwardMessage_contract
                (built photoPost channelOptions (Some "channel_post")
                   ["photo"]) (VNum 99) VUndef) as (Habsent & _).
    apply Habsent. by vm_compute.
  - destruct (forwardMessage_contract
                (built hiMessage noOptions (Some "message") ["text"])
                (VNum 99) VUndef) as (_ & Hpresent & _).
    rewrite (Hpresent _ eq_refl); [done | by vm_compute].
  - destruct (forwardMessage_contract
                (built chatlessMessage noOptions (Some "message") [])
                (VNum 99) VUndef) as (_ & _ & Hchatless).
    apply (Hchatless _ eq_refl). by vm_compute.
Defined.

(** ** The state bag and the reply mode *)

Lemma reads_event (g : M value) h c s :
  Pure g (λ c, h (update c)) →
  eval g (set_contextState s c) = eval g c.
Proof. intros Hg. unfold eval. by rewrite !Hg. Qed.

(** X10: the state bag is created empty by the first read and stays what
    it is on later reads; a read after an assignment returns the assigned
    bag, and of two assignments the last one; and no read accessor sees
    the bag: each returns the same value whatever the bag holds. *)
Theorem state_bag c :
  (contextState c = None →
   state c = (Ret ∅, set_contextState (Some ∅) c)) ∧
  (∀ s, contextState c = Some s → state c = (Ret s, c)) ∧
  (∃ b, twice state c = (Ret (b, b), (state c).2) ∧
        contextState (state c).2 = Some b) ∧
  (∀ s, (set_state s;; state) c = (Ret s, set_contextState (Some s) c)) ∧
  (∀ s1 s2,
     (set_state s1;; set_state s2;; state) c
     = (Ret s2, set_contextState (Some s2) c)) ∧
  Forall (λ g : M value, ∀ s, eval g (set_contextState s c) = eval g c)
    readAccessors.
Proof.
  split; [apply state_fresh |].
  split.
  { intros s Hs. unfold state, mbind, M_bind, this. by rewrite Hs. }
  split.
  { unfold twice, state, mbind, M_bind, this.
    destruct (contextState c) as [s |] eqn:Hs; cbn.
    - exists s. by rewrite Hs.
    - by exists ∅. }
  split; [done |]. split; [done |].
  unfold readAccessors. repeat apply Forall_cons_2; [.. | apply Forall_nil_2];
    intros s.
  - by apply (reads_event message (λ u, field u "message")).
  - by apply (reads_event editedMessage (λ u, field u "edited_message")).
  - by apply (reads_event inlineQuery (λ u, field u "inline_query")).
  - by apply (reads_event shippingQuery (λ u, field u "shipping_query")).
  - by apply (reads_event preCheckoutQuery
                (λ u, field u "pre_checkout_query")).
  - by apply (reads_event chosenInlineResult
                (λ u, field u "chosen_inline_result")).
  - by apply (reads_event channelPost (λ u, field u "channel_post")).
  - by apply (reads_event editedChannelPost
                (λ u, field u "edited_channel_post")).
  - by apply (reads_event callbackQuery (λ u, field u "callback_query")).
  - by apply (reads_event poll (λ u, field u "poll")).
  - by apply (reads_event pollAnswer (λ u, field u "poll_answer")).
  - apply (reads_event chat resolvedChat), chat_resolved.
  - apply (reads_event from resolvedSender), from_resolved.
  - apply (reads_event inlineMessageId resolvedInlineMessageId),
      inlineMessageId_resolved.
  - by apply (reads_event passportData
                (λ u, opt_member (field u "message") "passport_data")).
Qed.

Lemma state_bag_witness :
  state (mkContext hiMessage sampleClient noOptions (Some "message")
           ["text"] None)
  = (Ret ∅, built hiMessage noOptions (Some "message") ["text"]) ∧
  state (set_contextState (Some {[ "visits" := VNum 1 ]})
           (built hiMessage noOptions (Some "message") ["text"]))
  = (Ret {[ "visits" := VNum 1 ]},
     set_contextState (Some {[ "visits" := VNum 1 ]})
       (built hiMessage noOptions (Some "message") ["text"])).
Proof.
  split.
  - destruct (state_bag (mkContext hiMessage sampleClient noOptions
                           (Some "message") ["text"] None))
      as (Hfresh & _).
    by rewrite Hfresh.
  - destruct (state_bag
                (set_contextState (Some {[ "visits" := VNum 1 ]})
                   (built hiMessage noOptions (Some "message") ["text"])))
      as (_ & Hkept & _).
    by rewrite (Hkept _ eq_refl).
Defined.

(** ** The inline-message-id *)

(** X12: the inline-message-id is read from the callback query whenever
    the event has one, also when that callback query carries none while a
    chosen inline result of the event does; it is read from the chosen
    inline result only when the callback query is absent, and it is
    [undefined] when both are absent. *)
Theorem inline_message_id_resolution c :
  (∀ q,
     update c !! "callback_query" = Some (VObj q) →
     inlineMessageId c = (Ret (field q "inline_message_id"), c)) ∧
  (∀ r,
     nullish (field (update c) "callback_query") = true →
     update c !! "chosen_inline_result" = Some (VObj r) →
     inlineMessageId c = (Ret (field r "inline_message_id"), c)) ∧
  (nullish (field (update c) "callback_query") = true →
   nullish (field (update c) "chosen_inline_result") = true →
   inlineMessageId c = (Ret VUndef, c)).
Proof.
  split; [| split].
  - intros q Hq. rewrite inlineMessageId_resolved.
    unfold resolvedInlineMessageId, resolve, firstPresent,
      inlineTargetCandidates.
    cbn [find]. by rewrite (field_lookup _ _ _ Hq).
  - intros r Hq Hr. rewrite inlineMessageId_resolved.
    unfold resolvedInlineMessageId, resolve, firstPresent,
      inlineTargetCandidates.
    cbn [find]. rewrite Hq. cbn [negb]. by rewrite (field_lookup _ _ _ Hr).
  - intros Hq Hr. rewrite inlineMessageId_resolved.
    unfold resolvedInlineMessageId, resolve, firstPresent,
      inlineTargetCandidates.
    cbn [find]. by rewrite Hq, Hr.
Qed.

Lemma inline_message_id_resolution_witness :
  inlineMessageId
    (built (bareButtonPress ∪ chosenResult) noOptions
       (Some "callback_query") [])
  = (Ret VUndef,
     built (bareButtonPress ∪ chosenResult) noOptions
       (Some "callback_query") []) ∧
  inlineMessageId
    (built chosenResult noOptions (Some "chosen_inline_result") [])
  = (Ret (VStr "im"),
     built chosenResult noOptions (Some "chosen_inline_result") []) ∧
  inlineMessageId (built hiMessage noOptions (Some "message") ["text"])
  = (Ret VUndef, built hiMessage noOptions (Some "message") ["text"]).
Proof.
  split; [| split].
  - destruct (inline_message_id_resolution
                (built (bareButtonPress ∪ chosenResult) noOptions
                   (Some "callback_query") [])) as (Hq & _).
    by rewrite (Hq _ eq_refl).
  - destruct (inline_message_id_resolution
                (built chosenResult noOptions
                   (Some "chosen_inline_result") [])) as (_ & Hr & _).
    by rewrite (Hr _ eq_refl eq_refl).
  - destruct (inline_message_id_resolution
                (built hiMessage noOptions (Some "message") ["text"]))
      as (_ & _ & Hnone).
    by rewrite Hnone.
Defined.

(** ** Polls *)

Lemma declared_absent u k :
  (∀ k', k' ∈ UpdateTypes → k' ≠ "poll" → k' ≠ "poll_answer" →
         has_key u k' = false) →
  k ∈ UpdateTypes → k ≠ "poll" → k ≠ "poll_answer" →
  field u k = VUndef.
Proof. intros Hu Hk Hp Ha. by apply has_key_false, Hu. Qed.

(** X13: an event whose only primary fields are poll or poll_answer
    resolves to no chat, no sender and no inline-message-id, whatever the
    poll or the answer holds, since no chain probes these two fields; so on
    such an event every chat-scoped and every user-scoped method throws the
    error of the guard and reaches no client. *)
Theorem poll_events_resolve_nothing c :
  (∀ k, k ∈ UpdateTypes → k ≠ "poll" → k ≠ "poll_answer" →
        has_key (update c) k = false) →
  chat c = (Ret VUndef, c) ∧
  from c = (Ret VUndef, c) ∧
  inlineMessageId c = (Ret VUndef, c) ∧
  (∀ name op method args,
     (name, op, method) ∈ chatOperations →
     method args c = (Throw (Error (unavailable name c)), c)) ∧
  (∀ name method args,
     (name, method) ∈ userScoped →
     method args c = (Throw (Error (unavailable name c)), c)).
Proof.
  intros Hu.
  assert (∀ k, k ∈ UpdateTypes → k ≠ "poll" → k ≠ "poll_answer" →
               field (update c) k = VUndef) as Habsent.
  { intros k. by apply declared_absent. }
  assert (resolvedChat (update c) = VUndef) as Hchat.
  { unfold resolvedChat, chatCandidates. apply resolve_none.
    rewrite !Habsent by (first [solve [unfold UpdateTypes; in_list] | done]).
    by repeat constructor. }
  assert (resolvedSender (update c) = VUndef) as Hfrom.
  { unfold resolvedSender, senderCandidates. apply resolve_none.
    rewrite !Habsent by (first [solve [unfold UpdateTypes; in_list] | done]).
    by repeat constructor. }
  assert (resolvedInlineMessageId (update c) = VUndef) as Hinline.
  { unfold resolvedInlineMessageId, inlineTargetCandidates.
    apply resolve_none.
    rewrite !Habsent by (first [solve [unfold UpdateTypes; in_list] | done]).
    by repeat constructor. }
  split; [by rewrite chat_resolved, Hchat |].
  split; [by rewrite from_resolved, Hfrom |].
  split; [by rewrite inlineMessageId_resolved, Hinline |].
  split.
  - intros name op method args Hin. unfold chatOperations in Hin.
    each_member Hin; injection Hin as -> -> ->;
      by apply (guarded_absent chat _ _ _ _ _ chat_resolved).
  - intros name method args Hin. unfold userScoped in Hin.
    each_member Hin; injection Hin as -> ->;
      by apply (guarded_absent from _ _ _ _ _ from_resolved).
Qed.

Lemma poll_events_resolve_nothing_witness :
  from (built pollAnswerUpdate noOptions (Some "poll_answer") [])
  = (Ret VUndef, built pollAnswerUpdate noOptions (Some "poll_answer") []).
Proof.
  destruct (poll_events_resolve_nothing
              (built pollAnswerUpdate noOptions (Some "poll_answer") []))
    as (_ & Hfrom & _); [| exact Hfrom].
  intros k Hk Hpoll Hanswer. unfold UpdateTypes in Hk.
  each_member Hk; subst k; done.
Defined.

(** ** Editing from a chosen inline result *)

(** X14: on an event without a callback query the edit methods address by
    the inline-message-id of the chosen inline result alone: the guard
    fails exactly when that id is [undefined], and otherwise the call
    carries [undefined] as message id, that inline-message-id, and the id
    of whatever chat the event resolves to. *)
Theorem edit_on_chosen_inline_result c r :
  nullish (field (update c) "callback_query") = true →
  update c !! "chosen_inline_result" = Some (VObj r) →
  editGuardFails c = is_undefined (field r "inline_message_id") ∧
  addressing c
  = [ opt_member (resolvedChat (update c)) "id";
      VUndef;
      field r "inline_message_id" ] ∧
  (∀ text extra,
     editMessageText text extra c =
     if is_undefined (field r "inline_message_id")
     then (Throw (Error (unavailable "editMessageText" c)), c)
     else invoke "editMessageText"
            [ opt_member (resolvedChat (update c)) "id"; VUndef;
              field r "inline_message_id"; text; extra ] c) ∧
  (∀ markup,
     stopMessageLiveLocation markup c =
     if is_undefined (field r "inline_message_id")
     then (Throw (Error (unavailable "stopMessageLiveLocation" c)), c)
     else invoke "stopMessageLiveLocation"
            [ opt_member (resolvedChat (update c)) "id"; VUndef;
              field r "inline_message_id"; markup ] c).
Proof.
  intros Hq Hr.
  assert (resolvedInlineMessageId (update c) = field r "inline_message_id")
    as Hid.
  { unfold resolvedInlineMessageId, resolve, firstPresent,
      inlineTargetCandidates.
    cbn [find]. rewrite Hq. cbn [negb]. by rewrite (field_lookup _ _ _ Hr). }
  assert (editGuardFails c = is_undefined (field r "inline_message_id"))
    as Hguard.
  { unfold editGuardFails. by rewrite Hq, Hid. }
  assert (addressing c
          = [ opt_member (resolvedChat (update c)) "id"; VUndef;
              field r "inline_message_id" ]) as Haddr.
  { unfold addressing. rewrite Hid.
    by rewrite (opt_member_nullish (field (update c) "callback_query")). }
  split; [done |]. split; [done |]. split.
  - intros text extra. rewrite editMessageText_outcome. unfold editOutcome.
    by rewrite Hguard, Haddr.
  - intros markup. rewrite stopMessageLiveLocation_outcome.
    unfold editOutcome. by rewrite Hguard, Haddr.
Qed.

Lemma edit_on_chosen_inline_result_witness :
  editMessageText (VStr "new") VUndef
    (built chosenResult noOptions (Some "chosen_inline_result") [])
  = invoke "editMessageText"
      [VUndef; VUndef; VStr "im"; VStr "new"; VUndef]
      (built chosenResult noOptions (Some "chosen_inline_result") []).
Proof.
  destruct (edit_on_chosen_inline_result
              (built chosenResult noOptions (Some "chosen_inline_result") [])
              _ eq_refl eq_refl) as (_ & _ & Htext & _).
  by rewrite Htext.
Defined.

(** ** Calls in sequence *)

Lemma bind_run {A B} (m : M A) (k : A → M B) c r c' :
  m c = (Ret r, c') → (m ≫= k) c = k r c'.
Proof. intros Hm. unfold mbind, M_bind. by rewrite Hm. Qed.

Lemma bind_run_throw {A B} (m : M A) (k : A → M B) c e c' :
  m c = (Throw e, c') → (m ≫= k) c = (Throw e, c').
Proof. intros Hm. unfold mbind, M_bind. by rewrite Hm. Qed.

Lemma invoke_run op args c :
  invoke op args c = (api (tg c) op args, (invoke op args c).2).
Proof. done. Qed.

(** X15: two chat-scoped methods called one after the other on a facade
    with a chat: when the client answers the first call, both calls are
    recorded, in the order made, each with the id of the same resolved chat
    in front, and the outcome is the answer to the second; when the client
    throws on the first call, that error is the outcome and the second
    call is never made. *)
Theorem dispatch_in_sequence c n1 o1 m1 n2 o2 m2 a1 a2 :
  (n1, o1, m1) ∈ chatOperations →
  (n2, o2, m2) ∈ chatOperations →
  nullish (resolvedChat (update c)) = false →
  let id := opt_member (resolvedChat (update c)) "id" in
  (∀ r,
     api (tg c) o1 (id :: a1) = Ret r →
     ((m1 a1;; m2 a2) c).1 = api (tg c) o2 (id :: a2) ∧
     outbox (tg ((m1 a1;; m2 a2) c).2)
     = outbox (tg c) ++ [(o1, id :: a1); (o2, id :: a2)]) ∧
  (∀ e,
     api (tg c) o1 (id :: a1) = Throw e →
     ((m1 a1;; m2 a2) c).1 = Throw e ∧
     outbox (tg ((m1 a1;; m2 a2) c).2) = outbox (tg c) ++ [(o1, id :: a1)]).
Proof.
  intros H1 H2 Hchat id.
  assert (∀ c', update c' = update c →
                m1 a1 c' = invoke o1 (id :: a1) c' ∧
                m2 a2 c' = invoke o2 (id :: a2) c') as Hrun.
  { intros c' Hc'. unfold id. rewrite <- Hc'. split.
    - unfold chatOperations in H1.
      each_member H1; injection H1 as -> -> ->;
        apply (guarded_present chat _ _ _ _ _ chat_resolved);
        by rewrite Hc'.
    - unfold chatOperations in H2.
      each_member H2; injection H2 as -> -> ->;
        apply (guarded_present chat _ _ _ _ _ chat_resolved);
        by rewrite Hc'. }
  destruct (Hrun c eq_refl) as [Hfirst _].
  destruct (Hrun (invoke o1 (id :: a1) c).2 eq_refl) as [_ Hsecond].
  rewrite invoke_run in Hfirst.
  split.
  - intros r Hr. rewrite Hr in Hfirst.
    rewrite (bind_run _ _ _ _ _ Hfirst), Hsecond.
    split; [done |]. do 2 rewrite invoke_outbox. by rewrite <- app_assoc.
  - intros e He. rewrite He in Hfirst.
    rewrite (bind_run_throw _ _ _ _ _ Hfirst).
    split; [done |]. cbn [snd]. by rewrite invoke_outbox.
Qed.

Lemma dispatch_in_sequence_witness :
  outbox (tg ((reply [VStr "one"];; replyWithDice [])
                (built hiMessage noOptions (Some "message") ["text"])).2)
  = [("sendMessage", [VNum 5; VStr "one"]); ("sendDice", [VNum 5])] ∧
  outbox (tg ((reply [VStr "one"];; replyWithDice [])
                (mkContext hiMessage failingClient noOptions (Some "message")
                   ["text"] (Some ∅))).2)
  = [("sendMessage", [VNum 5; VStr "one"])].
Proof.
  split.
  - destruct (dispatch_in_sequence
                (built hiMessage noOptions (Some "message") ["text"])
                "reply" "sendMessage" reply
                "replyWithDice" "sendDice" replyWithDice
                [VStr "one"] []) as (Hboth & _).
    + unfold chatOperations. in_list.
    + unfold chatOperations. in_list.
    + by vm_compute.
    + destruct (Hboth (VBool true) eq_refl) as [_ Hout]. by rewrite Hout.
  - destruct (dispatch_in_sequence
                (mkContext hiMessage failingClient noOptions (Some "message")
                   ["text"] (Some ∅))
                "reply" "sendMessage" reply
                "replyWithDice" "sendDice" replyWithDice
                [VStr "one"] []) as (_ & Hstop).
    + unfold chatOperations. in_list.
    + unfold chatOperations. in_list.
    + by vm_compute.
    + destruct (Hstop (Error "transport") eq_refl) as [_ Hout].
      by rewrite Hout.
Defined.

(** ** What a dispatch method leaves alone *)

Lemma sameButOutbox_trans c1 c2 c3 :
  sameButOutbox c1 c2 → sameButOutbox c2 c3 → sameButOutbox c1 c3.
Proof.
  intros (? & ? & ? & ? & ? & ? & ?) (? & ? & ? & ? & ? & ? & ?).
  repeat split; congruence.
Qed.

Lemma calls_quiet {A} (m : M A) n :
  (∀ c, ∃ r, m c = (r, c)) → callsAtMost n m.
Proof.
  intros Hm c. destruct (Hm c) as [r ->].
  split; [apply sameButOutbox_refl |].
  exists []. split; [by rewrite app_nil_r | cbn; lia].
Qed.

Lemma calls_pure {A} (g : M A) f n : Pure g f → callsAtMost n g.
Proof. intros Hg. apply calls_quiet. intros c. rewrite Hg. by eexists. Qed.

Lemma calls_assert v method n : callsAtMost n (assert v method).
Proof. apply calls_quiet. intros c. destruct v; by eexists. Qed.

Lemma calls_lift {A} (r : Res A) n : callsAtMost n (lift r).
Proof. apply calls_quiet. intros c. by eexists. Qed.

Lemma calls_invoke op args : callsAtMost 1 (invoke op args).
Proof.
  intros c. split; [apply invoke_sameButOutbox |].
  exists [(op, args)]. by rewrite invoke_outbox.
Qed.

(** Code that records nothing, followed by code that records at most [n]
    calls, records at most [n] calls. *)
Lemma calls_bind {A B} (m : M A) (k : A → M B) n :
  callsAtMost 0 m → (∀ a, callsAtMost n (k a)) → callsAtMost n (m ≫= k).
Proof.
  intros Hm Hk c. destruct (Hm c) as (Hsame & calls & Hout & Hlen).
  destruct calls as [| call calls]; [| cbn in Hlen; lia].
  rewrite app_nil_r in Hout.
  unfold mbind, M_bind. destruct (m c) as [[a | e] c1]; cbn [snd] in *.
  - destruct (Hk a c1) as (Hsame' & calls' & Hout' & Hlen').
    split; [by apply (sameButOutbox_trans c c1) |].
    exists calls'. by rewrite Hout', Hout.
  - split; [done |]. exists []. split; [by rewrite app_nil_r | cbn; lia].
Qed.

#[global] Hint Resolve telegram_pure message_pure callbackQuery_pure
  inlineQuery_pure shippingQuery_pure preCheckoutQuery_pure
  editSubject_pure : pure.

(** Follows the body of a method statement by statement. *)
Ltac calls :=
  repeat first
    [ apply calls_invoke
    | apply calls_assert
    | apply calls_lift
    | solve [eapply calls_pure; eauto with pure]
    | apply calls_bind; [| intros ?]
    | match goal with
      | |- callsAtMost _ (if ?b then _ else _) => destruct b
      end ].

Lemma guarded_calls subject f method op args :
  Pure subject f → callsAtMost 1 (guarded subject method op args).
Proof.
  intros Hs. unfold guarded.
  apply calls_bind; [by apply (calls_pure _ f) | intros v].
  apply calls_bind; [apply calls_assert | intros _].
  apply calls_bind; [by apply (calls_pure _ tg) | intros _].
  apply calls_bind; [by apply (calls_pure _ f) | intros s].
  apply calls_bind; [apply calls_lift | intros id].
  apply calls_invoke.
Qed.

(** X16: no dispatch method of the class changes the event, the options,
    the primary or secondary kinds, the state bag or the reply mode of the
    client, and none removes or reorders a call the client has recorded:
    whatever its arguments and however it ends, a dispatch method adds at
    most one call behind the recorded ones. *)
Theorem dispatch_adds_at_most_one_call :
  Forall (λ method, ∀ args, callsAtMost 1 (method args)) allDispatch.
Proof.
  unfold allDispatch, chatScoped, queryScoped, userScoped.
  cbn [map app snd].
  do 38 (apply Forall_cons_2;
         [intros args; apply (guarded_calls chat _ _ _ _ chat_resolved) |]).
  do 2 (apply Forall_cons_2;
        [intros args; apply (guarded_calls chat _ _ _ _ chat_resolved) |]).
  apply Forall_cons_2; [intros args; unfold deleteMessage; calls |].
  apply Forall_cons_2;
    [intros args; apply (guarded_calls _ _ _ _ _ inlineQuery_pure) |].
  do 2 (apply Forall_cons_2;
        [intros args; apply (guarded_calls _ _ _ _ _ callbackQuery_pure) |]).
  apply Forall_cons_2;
    [intros args; apply (guarded_calls _ _ _ _ _ shippingQuery_pure) |].
  apply Forall_cons_2;
    [intros args; apply (guarded_calls _ _ _ _ _ preCheckoutQuery_pure) |].
  do 4 (apply Forall_cons_2;
        [intros args; apply (guarded_calls from _ _ _ _ from_resolved) |]).
  apply Forall_cons_2; [intros args; unfold editMessageText; calls |].
  apply Forall_cons_2; [intros args; unfold editMessageCaption; calls |].
  apply Forall_cons_2; [intros args; unfold editMessageMedia; calls |].
  apply Forall_cons_2; [intros args; unfold editMessageReplyMarkup; calls |].
  apply Forall_cons_2; [intros args; unfold editMessageLiveLocation; calls |].
  apply Forall_cons_2; [intros args; unfold stopMessageLiveLocation; calls |].
  apply Forall_cons_2; [intros args; unfold getStickerSet; calls |].
  apply Forall_cons_2; [intros args; unfold setStickerPositionInSet; calls |].
  apply Forall_cons_2; [intros args; unfold setStickerSetThumb; calls |].
  apply Forall_cons_2; [intros args; unfold deleteStickerFromSet; calls |].
  apply Forall_cons_2; [intros args; unfold getMyCommands; calls |].
  apply Forall_cons_2; [intros args; unfold setMyCommands; calls |].
  do 3 (apply Forall_cons_2;
        [intros args; apply (guarded_calls chat _ _ _ _ chat_resolved) |]).
  apply Forall_cons_2; [intros args; unfold forwardMessage; calls |].
  apply Forall_nil_2.
Qed.
